(** * labyrinth: the maze decoder, the player, the camera window and the
    progress store

    A shallow embedding of the game's script: [parseMazeFromImage], the
    classes [Player], [Maze], [GameState] and the parts of [MazeGame] that
    load a level and draw the main view.

    Conventions.
    - JavaScript numbers that hold pixel indices, byte samples, cell
      coordinates and level numbers are integers far below 2^53; they are
      modelled as [Z].  A template literal [`${n}`] of such a number is its
      decimal rendering, stdpp's [pretty].
    - A JavaScript [Set] of strings keeps its elements in insertion order
      ([Array.from] reads them back in that order); it is modelled as the
      list of its elements in that order.
    - Code that may throw returns a [Completion]; code that also changes the
      fields of the game object threads the game record through [Eff]. *)

From Stdlib Require Import ZArith QArith Qminmax Ascii Lia.
From stdpp Require Import base list strings pretty gmap numbers.

Open Scope string_scope.
Open Scope Z_scope.

(* ===================================================================== *)
(** ** JavaScript values used by the script *)
(* ===================================================================== *)

Module JS.

(** [`${v}`] where [v] is an element read from a typed array: a number, or
    [undefined] when the index is past the end. *)
Definition template_num (v : option Z) : string :=
  match v with
  | Some n => pretty n
  | None => "undefined"
  end.

(** [new Error(message)]. *)
Inductive Error := mkError (message : string).

Definition message (e : Error) : string :=
  match e with mkError m => m end.

(** How a piece of code ends: normally with a value, or by throwing
    (for a promise: resolved or rejected). *)
Inductive Completion (A : Type) :=
| Normal (a : A)
| Throw (e : Error).
Arguments Normal {A} a.
Arguments Throw {A} e.

(** *** [Set] of strings, in insertion order *)
Module StrSet.

Definition t := list string.

Definition empty : t := [].

Definition has (s : t) (k : string) : bool := bool_decide (k ∈ s).

(** [s.add(k)]: a key already present keeps its place. *)
Definition add (k : string) (s : t) : t :=
  if has s k then s else (s ++ [k])%list.

Definition size (s : t) : nat := length s.

(** [Array.from(s)] *)
Definition to_array (s : t) : list string := s.

(** [new Set(array)] *)
Definition of_array (l : list string) : t :=
  foldl (λ s k, add k s) empty l.

(** The lists that are sets: no key twice. *)
Definition wf (s : t) : Prop := NoDup s.

End StrSet.

End JS.

Import JS.

(* ===================================================================== *)
(** ** The maze decoder: [parseMazeFromImage] *)
(* ===================================================================== *)

(** The object literal [{ x: x, y: y }]. *)
Record Cell := mkCell { cell_x : Z; cell_y : Z }.

#[global] Instance Cell_eq_dec : EqDecision Cell.
Proof. solve_decision. Defined.

(** What [getImageData] gives for a loaded image: its size and the RGBA
    samples, four per pixel, row after row. *)
Record ImageData := mkImageData {
  img_width : Z;
  img_height : Z;
  img_data : list Z
}.

(** The object the promise resolves to. *)
Record MazeData := mkMazeData {
  data_width : Z;
  data_height : Z;
  data_start : Cell;
  data_goal : Cell;
  data_walls : list Cell
}.

Module COLOR_MAP.
Definition WALL : string := "0,0,0".
Definition PATH : string := "255,255,255".
Definition START : string := "0,0,255".
Definition GOAL : string := "255,0,0".
End COLOR_MAP.

(** [data[i]] *)
Definition sample (img : ImageData) (i : Z) : option Z :=
  if decide (0 ≤ i) then img_data img !! Z.to_nat i else None.

(** [`${r},${g},${b}`] *)
Definition colorKey (r g b : option Z) : string :=
  template_num r +:+ "," +:+ template_num g +:+ "," +:+ template_num b.

(** The three variables the two loops update. *)
Record Scan := mkScan {
  scan_walls : list Cell;
  scan_start : option Cell;
  scan_goal : option Cell
}.

Definition scan_init : Scan := mkScan [] None None.

(** The body of the inner loop, at column [x] of row [y]. *)
Definition scan_pixel (img : ImageData) (y : Z) (st : Scan) (x : Z) : Scan :=
  let i := (y * img_width img + x) * 4 in
  let r := sample img i in
  let g := sample img (i + 1) in
  let b := sample img (i + 2) in
  let key := colorKey r g b in
  if decide (key = COLOR_MAP.WALL) then
    mkScan (scan_walls st ++ [mkCell x y])%list (scan_start st) (scan_goal st)
  else if decide (key = COLOR_MAP.START) then
    mkScan (scan_walls st) (Some (mkCell x y)) (scan_goal st)
  else if decide (key = COLOR_MAP.GOAL) then
    mkScan (scan_walls st) (scan_start st) (Some (mkCell x y))
  else st.

(** [for (let x = 0; x < width; x++)] *)
Definition scan_row (img : ImageData) (st : Scan) (y : Z) : Scan :=
  foldl (scan_pixel img y) st (seqZ 0 (img_width img)).

(** [for (let y = 0; y < height; y++)] *)
Definition scan_image (img : ImageData) : Scan :=
  foldl (scan_row img) scan_init (seqZ 0 (img_height img)).

Definition missing_landmark_message (imageUrl : string) : string :=
  "迷路画像 " +:+ imageUrl +:+
  " のスタート(青: 0,0,255)またはゴール(赤: 255,0,0)が見つかりませんでした。".

Definition load_error_message (imageUrl : string) : string :=
  "迷路画像 " +:+ imageUrl +:+
  " を読み込めませんでした。ファイルが存在しないか、パスが間違っています。".

(** [img.onload]: the scan, then the check [if (!start || !goal)]. *)
Definition parse_loaded (imageUrl : string) (img : ImageData)
  : Completion MazeData :=
  let st := scan_image img in
  match scan_start st, scan_goal st with
  | Some s, Some g =>
      Normal (mkMazeData (img_width img) (img_height img) s g (scan_walls st))
  | _, _ => Throw (mkError (missing_landmark_message imageUrl))
  end.

(** The files the browser can fetch: [None] is an image that fails to load
    ([img.onerror]). *)
Definition Assets := string → option ImageData.

Definition parseMazeFromImage (assets : Assets) (imageUrl : string)
  : Completion MazeData :=
  match assets imageUrl with
  | Some img => parse_loaded imageUrl img
  | None => Throw (mkError (load_error_message imageUrl))
  end.

(** [getMazeConfig(level).filename] *)
Definition getMazeConfig (level : Z) : string :=
  "maps/" +:+ pretty level +:+ ".png".

(* ===================================================================== *)
(** ** [class Maze] and [class Player] *)
(* ===================================================================== *)

(** [`${x},${y}`], the key under which a cell is kept in a [Set]. *)
Definition cellKey (x y : Z) : string := pretty x +:+ "," +:+ pretty y.

Record Maze := mkMaze {
  maze_width : Z;
  maze_height : Z;
  maze_start : Cell;
  maze_goal : Cell;
  maze_walls : StrSet.t
}.

(** [new Maze(data)]: [data.walls] is an array whenever [data] comes from
    the decoder, so the guard around [forEach] is passed. *)
Definition new_Maze (data : MazeData) : Maze :=
  mkMaze (data_width data) (data_height data)
         (data_start data) (data_goal data)
         (foldl (λ s wall, StrSet.add (cellKey (cell_x wall) (cell_y wall)) s)
                StrSet.empty (data_walls data)).

Definition isWall (m : Maze) (x y : Z) : bool :=
  StrSet.has (maze_walls m) (cellKey x y).

Definition isValidMove (m : Maze) (x y : Z) : bool :=
  bool_decide (x >= 0) && bool_decide (x < maze_width m) &&
  bool_decide (y >= 0) && bool_decide (y < maze_height m) &&
  negb (isWall m x y).

Record Player := mkPlayer {
  player_x : Z;
  player_y : Z;
  visitedCells : StrSet.t
}.

Definition markVisited (p : Player) : Player :=
  mkPlayer (player_x p) (player_y p)
           (StrSet.add (cellKey (player_x p) (player_y p)) (visitedCells p)).

(** [new Player(startX, startY)] *)
Definition new_Player (startX startY : Z) : Player :=
  markVisited (mkPlayer startX startY StrSet.empty).

Definition hasVisited (p : Player) (x y : Z) : bool :=
  StrSet.has (visitedCells p) (cellKey x y).

(** [move(dx, dy, maze)]: the player after the call and the value returned. *)
Definition move (dx dy : Z) (maze : Maze) (p : Player) : Player * bool :=
  let newX := player_x p + dx in
  let newY := player_y p + dy in
  if negb (isWall maze newX newY) then
    (markVisited (mkPlayer newX newY (visitedCells p)), true)
  else (p, false).

Definition isAtGoal (p : Player) (maze : Maze) : bool :=
  bool_decide (player_x p = cell_x (maze_goal maze)) &&
  bool_decide (player_y p = cell_y (maze_goal maze)).

(** A run of [move] calls, each given as [(dx, dy)]. *)
Definition moves (maze : Maze) (p : Player) (steps : list (Z * Z)) : Player :=
  foldl (λ q d, (move d.1 d.2 maze q).1) p steps.

(* ===================================================================== *)
(** ** [class GameState]: the progress store *)
(* ===================================================================== *)

(** One entry of the progress object, [{ completed: ..., path: [...] }];
    an entry written by an older version of the game may lack [path]. *)
Record LevelProgress := mkLevelProgress {
  completed : bool;
  path : option (list string)
}.

(** The value under the key ['mazeGameProgress'] of [localStorage], if any.
    The stored text is [JSON.stringify] of the progress object and is read
    back with [JSON.parse]; the object holds only booleans, strings, arrays
    and objects, which that pair of functions gives back unchanged, so the
    store is modelled as holding the object. *)
Definition Storage := option (gmap string LevelProgress).

Record GameState := mkGameState {
  currentLevel : Z;
  maxLevel : Z;
  progress : gmap string LevelProgress;
  currentScreen : string
}.

Definition loadProgress (saved : Storage) : gmap string LevelProgress :=
  match saved with
  | Some o => o
  | None => ∅
  end.

Definition new_GameState (saved : Storage) : GameState :=
  mkGameState 1 0 (loadProgress saved) "title".

Definition saveProgress (gs : GameState) : Storage := Some (progress gs).

(** [completeLevel(level, pathSet)]: the new state and what is stored. *)
Definition completeLevel (level : Z) (pathSet : StrSet.t) (gs : GameState)
  : GameState * Storage :=
  let pathArray := StrSet.to_array pathSet in
  let gs' :=
    mkGameState (currentLevel gs) (maxLevel gs)
      (<[pretty level := mkLevelProgress true (Some pathArray)]> (progress gs))
      (currentScreen gs) in
  (gs', saveProgress gs').

Definition getCompletedPath (level : Z) (gs : GameState) : StrSet.t :=
  match progress gs !! pretty level with
  | Some (mkLevelProgress _ (Some p)) => StrSet.of_array p
  | _ => StrSet.empty
  end.

Definition isLevelCompleted (level : Z) (gs : GameState) : bool :=
  match progress gs !! pretty level with
  | Some lp => completed lp
  | None => false
  end.

Definition isLevelUnlocked (level : Z) (gs : GameState) : bool :=
  bool_decide (level = 1) || isLevelCompleted (level - 1) gs.

(* ===================================================================== *)
(** ** The main view: [MazeGame.renderMaze] *)
(* ===================================================================== *)

Definition CONTAINER_SIZE : Z := 500.
Definition MIN_CELL_SIZE : Z := 20.
Definition MAX_VISIBLE_CELLS : Z := 25.

(** [Math.floor(W_VIEW / 2)] *)
Definition HALF_VIEW : Z := MAX_VISIBLE_CELLS `div` 2.

Definition viewRange : Z := 1.

(** The cell range the drawing loops run over, [startX..endX] by
    [startY..endY]; in the camera branch [startX] and [startY] are
    [viewPortStartX] and [viewPortStartY]. *)
Record Window := mkWindow {
  startX : Z;
  startY : Z;
  endX : Z;
  endY : Z
}.

Definition window (m : Maze) (p : Player) : Window :=
  let W_MAZE := maze_width m in
  let H_MAZE := maze_height m in
  let W_VIEW := MAX_VISIBLE_CELLS in
  let H_VIEW := MAX_VISIBLE_CELLS in
  if bool_decide (W_MAZE ≤ W_VIEW) && bool_decide (H_MAZE ≤ H_VIEW) then
    mkWindow 0 0 (W_MAZE - 1) (H_MAZE - 1)
  else
    let viewPortStartX := player_x p - HALF_VIEW in
    let viewPortStartX := Z.max 0 viewPortStartX in
    let viewPortStartX := Z.min (W_MAZE - W_VIEW) viewPortStartX in
    let viewPortStartY := player_y p - HALF_VIEW in
    let viewPortStartY := Z.max 0 viewPortStartY in
    let viewPortStartY := Z.min (H_MAZE - H_VIEW) viewPortStartY in
    mkWindow viewPortStartX viewPortStartY
             (viewPortStartX + W_VIEW - 1) (viewPortStartY + H_VIEW - 1).

(** The camera branch is the [else] of the test above. *)
Definition camera_follow (m : Maze) : bool :=
  negb (bool_decide (maze_width m ≤ MAX_VISIBLE_CELLS) &&
        bool_decide (maze_height m ≤ MAX_VISIBLE_CELLS)).

(** A drawing call made for the cell [(op_x, op_y)]; on the canvas it lands
    at [(op_x * cellSize + offsetX, op_y * cellSize + offsetY)]. *)
Inductive DrawKind :=
| FillRect (fillStyle : string)
| StrokeRect (strokeStyle : string)
| FillInset (fillStyle : string)
| FillArc (fillStyle : string).

Record DrawOp := mkDrawOp {
  op_x : Z;
  op_y : Z;
  op_kind : DrawKind
}.

Definition isInView (p : Player) (x y : Z) : bool :=
  bool_decide (Z.abs (x - player_x p) ≤ viewRange) &&
  bool_decide (Z.abs (y - player_y p) ≤ viewRange).

(** The body of the inner drawing loop. *)
Definition draw_cell (m : Maze) (p : Player) (y x : Z) : list DrawOp :=
  if bool_decide (x < 0) || bool_decide (x >= maze_width m) ||
     bool_decide (y < 0) || bool_decide (y >= maze_height m)
  then []
  else
    let inView := isInView p x y in
    let visited := hasVisited p x y in
    if inView || visited then
      if isWall m x y then [mkDrawOp x y (FillRect "#333")]
      else
        [mkDrawOp x y (FillRect (if inView then "#fff" else "#f0f0f0"));
         mkDrawOp x y (StrokeRect "#ddd")] ++
        (if bool_decide (x = cell_x (maze_goal m)) &&
            bool_decide (y = cell_y (maze_goal m))
         then [mkDrawOp x y (FillInset "#F44336")] else [])
    else [].

(** [for (let y = startY; y <= endY; y++) for (let x = startX; x <= endX; x++)] *)
Definition draw_cells (m : Maze) (p : Player) : list DrawOp :=
  let w := window m p in
  y ← seqZ (startY w) (endY w - startY w + 1);
  x ← seqZ (startX w) (endX w - startX w + 1);
  draw_cell m p y x.

(** What is on the canvas after [renderMaze]: the cells, then the player's
    marker. *)
Definition renderMaze (m : Maze) (p : Player) : list DrawOp :=
  (draw_cells m p ++ [mkDrawOp (player_x p) (player_y p) (FillArc "#4CAF50")])%list.

(** The main view shows the cell [(x, y)]: the loop made a drawing call
    for it. *)
Definition drawn (m : Maze) (p : Player) (x y : Z) : Prop :=
  ∃ op, op ∈ draw_cells m p ∧ op_x op = x ∧ op_y op = y.

(** [this.cellSize] as [startLevel] sets it, in exact arithmetic. *)
Definition level_cellSize (m : Maze) : Q :=
  let fixedVisibleCellSize := (inject_Z CONTAINER_SIZE / inject_Z MAX_VISIBLE_CELLS)%Q in
  let maxFitCellSize :=
    Qmin (inject_Z CONTAINER_SIZE / inject_Z (maze_width m))%Q
         (inject_Z CONTAINER_SIZE / inject_Z (maze_height m))%Q in
  if bool_decide (maze_width m ≤ MAX_VISIBLE_CELLS) &&
     bool_decide (maze_height m ≤ MAX_VISIBLE_CELLS)
  then Qmax (inject_Z MIN_CELL_SIZE) maxFitCellSize
  else Qmax (inject_Z MIN_CELL_SIZE) fixedVisibleCellSize.

(* ===================================================================== *)
(** ** [class MazeGame]: loading a level *)
(* ===================================================================== *)

(** The fields of the game object that the code below reads or assigns,
    and what the page shows: [mainCanvas] is what [renderMaze] last drew on
    ['maze-canvas'], [alerts] the messages given to [alert] so far and
    [localStorage] the saved progress. *)
Record MazeGame := mkMazeGame {
  gameState : GameState;
  maze : option Maze;
  player : option Player;
  cellSize : Q;
  parsedMazes : gmap string MazeData;
  mainCanvas : list DrawOp;
  alerts : list string;
  localStorage : Storage
}.

(** Code of a method of the game: it may assign fields and may throw. *)
Definition Eff (A : Type) : Type := MazeGame → Completion A * MazeGame.

#[global] Instance Eff_ret : MRet Eff := λ A a g, (Normal a, g).

#[global] Instance Eff_bind : MBind Eff := λ A B k c g,
  match c g with
  | (Normal a, g') => k a g'
  | (Throw e, g') => (Throw e, g')
  end.

(** [await promise]: go on with the value, or throw the rejection. *)
Definition await {A} (c : Completion A) : Eff A := λ g, (c, g).

(** [try { body } catch (error) { handler }] *)
Definition try_catch {A} (body : Eff A) (handler : Error → Eff A) : Eff A :=
  λ g, match body g with
       | (Throw e, g') => handler e g'
       | r => r
       end.

Definition get : Eff MazeGame := λ g, (Normal g, g).

Definition modify (f : MazeGame → MazeGame) : Eff unit := λ g, (Normal (), f g).

Definition set_gameState (gs : GameState) (g : MazeGame) : MazeGame :=
  mkMazeGame gs (maze g) (player g) (cellSize g) (parsedMazes g)
             (mainCanvas g) (alerts g) (localStorage g).

Definition set_maze (m : option Maze) (g : MazeGame) : MazeGame :=
  mkMazeGame (gameState g) m (player g) (cellSize g) (parsedMazes g)
             (mainCanvas g) (alerts g) (localStorage g).

Definition set_player (p : option Player) (g : MazeGame) : MazeGame :=
  mkMazeGame (gameState g) (maze g) p (cellSize g) (parsedMazes g)
             (mainCanvas g) (alerts g) (localStorage g).

Definition set_cellSize (c : Q) (g : MazeGame) : MazeGame :=
  mkMazeGame (gameState g) (maze g) (player g) c (parsedMazes g)
             (mainCanvas g) (alerts g) (localStorage g).

Definition set_parsedMazes (c : gmap string MazeData) (g : MazeGame) : MazeGame :=
  mkMazeGame (gameState g) (maze g) (player g) (cellSize g) c
             (mainCanvas g) (alerts g) (localStorage g).

Definition set_mainCanvas (c : list DrawOp) (g : MazeGame) : MazeGame :=
  mkMazeGame (gameState g) (maze g) (player g) (cellSize g) (parsedMazes g)
             c (alerts g) (localStorage g).

Definition set_localStorage (s : Storage) (g : MazeGame) : MazeGame :=
  mkMazeGame (gameState g) (maze g) (player g) (cellSize g) (parsedMazes g)
             (mainCanvas g) (alerts g) s.

(** [alert(msg)] *)
Definition alert (msg : string) : Eff unit :=
  modify (λ g, mkMazeGame (gameState g) (maze g) (player g) (cellSize g)
                 (parsedMazes g) (mainCanvas g) (alerts g ++ [msg])
                 (localStorage g)).

(** [this.gameState.currentLevel = level] *)
Definition set_currentLevel (level : Z) : Eff unit :=
  modify (λ g, set_gameState
                 (mkGameState level (maxLevel (gameState g))
                    (progress (gameState g)) (currentScreen (gameState g))) g).

(** [showScreen(screenName)]: besides switching the visible screen and the
    focus, it records the screen's name. *)
Definition showScreen (screenName : string) : Eff unit :=
  modify (λ g, set_gameState
                 (mkGameState (currentLevel (gameState g))
                    (maxLevel (gameState g)) (progress (gameState g))
                    screenName) g).

(** [this.parsedMazes[level] = mazeData] *)
Definition cache_maze (level : Z) (d : MazeData) : Eff unit :=
  modify (λ g, set_parsedMazes (<[pretty level := d]> (parsedMazes g)) g).

(** [addLevelPreview(button, level)], for what it does to the game object:
    on a cache miss it decodes the level's image and keeps the result; its
    own [try]/[catch] swallows a failure.  (It then paints the button's
    preview canvas.) *)
Definition addLevelPreview (assets : Assets) (level : Z) : Eff unit :=
  g ← get;
  if isLevelCompleted level (gameState g) then
    match parsedMazes g !! pretty level with
    | Some _ => mret ()
    | None =>
        match parseMazeFromImage assets (getMazeConfig level) with
        | Normal d => cache_maze level d
        | Throw _ => mret ()
        end
    end
  else mret ().

(** [updateLevelGrid()]: one button per level [1..maxLevel], with a preview
    on the completed ones. *)
Definition updateLevelGrid (assets : Assets) : Eff unit :=
  g ← get;
  foldr (λ i rest,
           g' ← get;
           (if isLevelCompleted i (gameState g')
            then addLevelPreview assets i else mret ());;
           rest)
        (mret ()) (seqZ 1 (maxLevel (gameState g))).

Definition no_maps_message : string :=
  "マップファイルが見つかりません。レベル1.pngをmapsフォルダに配置してください。".

Definition showLevelSelect (assets : Assets) : Eff unit :=
  g ← get;
  if decide (maxLevel (gameState g) = 0) then alert no_maps_message
  else showScreen "level-select";; updateLevelGrid assets.

(** [render()], for the main canvas ([renderMinimap] paints the second
    one).  With [this.maze] or [this.player] still [null] the property
    access throws. *)
Definition render : Eff unit :=
  g ← get;
  match maze g, player g with
  | Some m, Some p => modify (set_mainCanvas (renderMaze m p))
  | _, _ => λ g', (Throw (mkError "TypeError"), g')
  end.

Definition not_implemented_message : string :=
  "このレベルはまだ実装されていません。".

Definition newline : string := String (Ascii.ascii_of_nat 10) "".

(** [`${error.message || error}`] *)
Definition error_text (e : Error) : string :=
  if decide (message e = "") then "Error" else message e.

Definition load_failed_message (level : Z) (e : Error) : string :=
  "レベル " +:+ pretty level +:+ " の読み込みに失敗しました。" +:+ newline +:+
  "エラー: " +:+ error_text e.

(** [async startLevel(level)].  [getMazeConfig] always gives an object, so
    [!config] is false.  (Fetching the two canvases and their contexts,
    sizing the canvas and writing the level's title change nothing that is
    kept here.) *)
Definition startLevel (assets : Assets) (level : Z) : Eff unit :=
  let config := getMazeConfig level in
  g ← get;
  if decide (level > maxLevel (gameState g)) then alert not_implemented_message
  else
    set_currentLevel level;;
    try_catch
      (g1 ← get;
       mazeData ←
         match parsedMazes g1 !! pretty level with
         | Some d => mret d
         | None =>
             d ← await (parseMazeFromImage assets config);
             cache_maze level d;;
             mret d
         end;
       let m := new_Maze mazeData in
       modify (set_maze (Some m));;
       modify (set_player
                 (Some (new_Player (cell_x (maze_start m)) (cell_y (maze_start m)))));;
       modify (set_cellSize (level_cellSize m));;
       showScreen "game";;
       render)
      (λ error,
         alert (load_failed_message level error);;
         showLevelSelect assets).

(** [MazeGame.completeLevel()]: the visited cells go to the progress store
    and the clear screen is shown. *)
Definition game_completeLevel : Eff unit :=
  g ← get;
  match player g with
  | Some p =>
      let r := completeLevel (currentLevel (gameState g)) (visitedCells p)
                             (gameState g) in
      modify (λ g', set_localStorage r.2 (set_gameState r.1 g'));;
      showScreen "clear"
  | None => λ g', (Throw (mkError "TypeError"), g')
  end.

(** [movePlayer(dx, dy)] while the game screen is shown: a successful move
    redraws, and reaching the goal completes the level.  (The sounds are
    left out.) *)
Definition movePlayer (dx dy : Z) : Eff unit :=
  g ← get;
  if decide (currentScreen (gameState g) = "game") then
    match maze g, player g with
    | Some m, Some p =>
        let r := move dx dy m p in
        modify (set_player (Some r.1));;
        if r.2 then
          render;;
          if isAtGoal r.1 m then game_completeLevel else mret ()
        else mret ()
    | _, _ => λ g', (Throw (mkError "TypeError"), g')
    end
  else mret ().

(* ===================================================================== *)
(** ** The decoder as the specification words it *)
(* ===================================================================== *)

Module Spec.

Definition RGB : Type := Z * Z * Z.

Definition wall_color : RGB := (0, 0, 0).
Definition path_color : RGB := (255, 255, 255).
Definition start_color : RGB := (0, 0, 255).
Definition goal_color : RGB := (255, 0, 0).

(** The colour of the pixel at a cell, when the buffer holds its three
    samples. *)
Definition pixel (img : ImageData) (c : Cell) : option RGB :=
  let i := (cell_y c * img_width img + cell_x c) * 4 in
  match sample img i, sample img (i + 1), sample img (i + 2) with
  | Some r, Some g, Some b => Some (r, g, b)
  | _, _, _ => None
  end.

(** Row-major order: row 0 from left to right, then row 1, ... *)
Definition scan_order (img : ImageData) : list Cell :=
  y ← seqZ 0 (img_height img);
  x ← seqZ 0 (img_width img);
  [mkCell x y].

(** The pixels of exactly the colour [col], in scan order. *)
Definition matching (img : ImageData) (col : RGB) : list Cell :=
  filter (λ c, pixel img c = Some col) (scan_order img).

Definition decode (imageUrl : string) (img : ImageData)
  : Completion MazeData :=
  match list.last (matching img start_color), list.last (matching img goal_color) with
  | Some s, Some g =>
      Normal (mkMazeData (img_width img) (img_height img) s g
                         (matching img wall_color))
  | _, _ => Throw (mkError (missing_landmark_message imageUrl))
  end.

End Spec.

(** One step of the scan, told by the pixel's colour. *)
Definition classify (img : ImageData) (st : Scan) (c : Cell) : Scan :=
  if decide (Spec.pixel img c = Some Spec.wall_color) then
    mkScan (scan_walls st ++ [c])%list (scan_start st) (scan_goal st)
  else if decide (Spec.pixel img c = Some Spec.start_color) then
    mkScan (scan_walls st) (Some c) (scan_goal st)
  else if decide (Spec.pixel img c = Some Spec.goal_color) then
    mkScan (scan_walls st) (scan_start st) (Some c)
  else st.

(* ===================================================================== *)
(** ** Sample images and mazes *)
(* ===================================================================== *)

Module Examples.

(** One pixel of each colour, as four samples. *)
Definition black : list Z := [0; 0; 0; 255].
Definition white : list Z := [255; 255; 255; 255].
Definition blue : list Z := [0; 0; 255; 255].
Definition red : list Z := [255; 0; 0; 255].
Definition grey : list Z := [128; 128; 128; 255].

Definition image (width height : Z) (pixels : list (list Z)) : ImageData :=
  mkImageData width height (concat pixels).

(** A 5x5 room: a wall all around, the start at (1,1), the goal at (3,3). *)
Definition room : ImageData :=
  image 5 5
    [black; black; black; black; black;
     black; blue;  white; white; black;
     black; white; white; white; black;
     black; white; white; red;   black;
     black; black; black; black; black].

Definition room_walls : list Cell :=
  [mkCell 0 0; mkCell 1 0; mkCell 2 0; mkCell 3 0; mkCell 4 0;
   mkCell 0 1; mkCell 4 1;
   mkCell 0 2; mkCell 4 2;
   mkCell 0 3; mkCell 4 3;
   mkCell 0 4; mkCell 1 4; mkCell 2 4; mkCell 3 4; mkCell 4 4].

Definition room_data : MazeData :=
  mkMazeData 5 5 (mkCell 1 1) (mkCell 3 3) room_walls.

(** Two start pixels and two goal pixels on one row. *)
Definition twice : ImageData :=
  image 5 1 [blue; red; blue; red; black].

(** A goal but no start; a start but no goal. *)
Definition no_start : ImageData := image 3 1 [black; white; red].
Definition no_goal : ImageData := image 3 1 [black; blue; white].

(** A corridor without walls, 30 cells long: start at (1,0), goal at
    (29,0). *)
Definition corridor : ImageData :=
  image 30 1 ([white; blue] ++ replicate 27 white ++ [red]).

(** A narrow, tall image: 10 columns, 30 rows, start at (0,0) and goal
    at (1,0). *)
Definition tower : ImageData :=
  image 10 30 ([blue; red] ++ replicate 298 white).

(** Every file name leads to the same image. *)
Definition only (img : ImageData) : Assets := λ _, Some img.

(** No file can be loaded. *)
Definition nothing : Assets := λ _, None.

End Examples.

Module Mazes.

(** What the sample images decode to. *)
Definition corridor_data : MazeData :=
  mkMazeData 30 1 (mkCell 1 0) (mkCell 29 0) [].

Definition tower_data : MazeData :=
  mkMazeData 10 30 (mkCell 0 0) (mkCell 1 0) [].

(** The player of the corridor after 27 steps to the right. *)
Definition corridor_walker : Player :=
  moves (new_Maze corridor_data) (new_Player 1 0) (replicate 27 (1, 0)).

End Mazes.

(** A method call that ends normally and leaves the level in play alone:
    the maze, the player, the cell size, the canvas, the game state, the
    alerts and the saved progress are as before (the cache of decoded mazes
    may have grown). *)
Definition quiet (c : Eff unit) : Prop :=
  ∀ g, ∃ g',
    c g = (Normal (), g') ∧
    gameState g' = gameState g ∧ maze g' = maze g ∧ player g' = player g ∧
    cellSize g' = cellSize g ∧ mainCanvas g' = mainCanvas g ∧
    alerts g' = alerts g ∧ localStorage g' = localStorage g.

Module Games.

(** A game in which level 1, the room, is being played; three levels are
    known and none of them is in the cache. *)
Definition playing : MazeGame :=
  mkMazeGame (mkGameState 1 3 ∅ "game")
             (Some (new_Maze Examples.room_data))
             (Some (new_Player 1 1))
             (inject_Z 100) ∅ [] [] None.

(** A run of [movePlayer] calls. *)
Definition play (steps : list (Z * Z)) : Eff unit :=
  foldr (λ d rest, movePlayer d.1 d.2;; rest) (mret ()) steps.

End Games.

(* ===================================================================== *)
(** ** [class MazeGame]: start-up, the level grid, the keys, the minimap *)
(* ===================================================================== *)

(** [new MazeGame()] before [init()] runs: the progress is read from the
    store, no level is in play and nothing is cached. *)
Definition new_MazeGame (saved : Storage) : MazeGame :=
  mkMazeGame (new_GameState saved) None None (inject_Z 25) ∅ [] [] saved.

Definition MAX_CHECK_LIMIT : Z := 99.

(** [this.gameState.setMaxLevel(level)] *)
Definition setMaxLevel (level : Z) : Eff unit :=
  modify (λ g, set_gameState
                 (mkGameState (currentLevel (gameState g)) level
                    (progress (gameState g)) (currentScreen (gameState g))) g).

(** The loop of [determineMaxLevel] over the levels still to probe, with its
    variable [maxLevel]: a level that decodes is cached and becomes the new
    maximum, the first one that does not ends the loop ([break]). *)
Fixpoint probe_levels (assets : Assets) (levels : list Z) (maxLevel : Z) : Eff Z :=
  match levels with
  | [] => mret maxLevel
  | i :: rest =>
      match parseMazeFromImage assets (getMazeConfig i) with
      | Normal d => cache_maze i d;; probe_levels assets rest i
      | Throw _ => mret maxLevel
      end
  end.

(** [async determineMaxLevel()] (the console messages are left out). *)
Definition determineMaxLevel (assets : Assets) : Eff unit :=
  maxLevel ← probe_levels assets (seqZ 1 MAX_CHECK_LIMIT) 0;
  setMaxLevel maxLevel.

(** [async init()], for the game object: the listeners and the audio set-up
    change nothing that is kept here. *)
Definition init (assets : Assets) : Eff unit :=
  determineMaxLevel assets;;
  showScreen "title".

(** The [mazeData] that [startLevel] works with: the cached descriptor, or
    on a miss the outcome of decoding the level's image. *)
Definition level_data (assets : Assets) (level : Z) (g : MazeGame)
  : Completion MazeData :=
  match parsedMazes g !! pretty level with
  | Some d => Normal d
  | None => parseMazeFromImage assets (getMazeConfig level)
  end.

(** The class [updateLevelGrid] gives the button of level [i], and whether
    the button gets a click listener. *)
Definition level_button_class (i : Z) (gs : GameState) : string :=
  if isLevelCompleted i gs then "completed"
  else if isLevelUnlocked i gs then "available"
  else "locked".

Definition level_button_clickable (i : Z) (gs : GameState) : bool :=
  isLevelUnlocked i gs.

(** Every level known as completed is unlocked, so its button can be
    clicked. *)
Definition progress_closed (gs : GameState) : Prop :=
  ∀ i, isLevelCompleted i gs = true → isLevelUnlocked i gs = true.

(** [String.prototype.toLowerCase] on a key name.  The letters A to Z are
    lowered; other bytes stay (no character outside ASCII lowers to one of
    the letters the handler compares with). *)
Definition lower_ascii (c : Ascii.ascii) : Ascii.ascii :=
  let n := Ascii.nat_of_ascii c in
  if ((65 <=? n)%nat && (n <=? 90)%nat)%bool then Ascii.ascii_of_nat (n + 32) else c.

Fixpoint toLowerCase (s : string) : string :=
  match s with
  | EmptyString => EmptyString
  | String c s' => String (lower_ascii c) (toLowerCase s')
  end.

(** The [switch] of [handleGameKeyPress]: the step for a key, or [None] for
    the [default] branch. *)
Definition key_step (key : string) : option (Z * Z) :=
  let k := toLowerCase key in
  if decide (k = "w" ∨ k = "arrowup") then Some (0, -1)
  else if decide (k = "s" ∨ k = "arrowdown") then Some (0, 1)
  else if decide (k = "a" ∨ k = "arrowleft") then Some (-1, 0)
  else if decide (k = "d" ∨ k = "arrowright") then Some (1, 0)
  else None.

Definition handleGameKeyPress (key : string) : Eff unit :=
  match key_step key with
  | Some d => movePlayer d.1 d.2
  | None => mret ()
  end.

(** The steps of the four on-screen buttons. *)
Definition controlButtons : list (string * (Z * Z)) :=
  [("up-btn", (0, -1)); ("down-btn", (0, 1));
   ("left-btn", (-1, 0)); ("right-btn", (1, 0))].

(** What [handleClearScreenKeyPress] does with the buttons of the clear
    screen. *)
Inductive ClearAction :=
| NoAction
| ClickFocused
| FocusButton (index : Z).

(** [handleClearScreenKeyPress(e)], given the number [n] of visible buttons,
    the index [currentIndex] of the focused element among them (-1 when it
    is none of them) and whether the focused element is a menu button.
    JavaScript's [%] is the remainder that takes the sign of the dividend,
    [Z.rem]. *)
Definition handleClearScreenKeyPress
    (key : string) (n currentIndex : Z) (focusedIsMenuButton : bool)
  : ClearAction :=
  if decide (n = 0) then NoAction
  else if decide (key = "Enter" ∨ key = " ") then
    if focusedIsMenuButton then ClickFocused else NoAction
  else if decide (key = "ArrowDown" ∨ key = "ArrowUp") then
    let nextIndex := currentIndex in
    let nextIndex :=
      if decide (key = "ArrowDown") then Z.rem (currentIndex + 1) n
      else if decide (key = "ArrowUp") then Z.rem (currentIndex - 1 + n) n
      else nextIndex in
    let nextIndex := if decide (currentIndex = -1) then 0 else nextIndex in
    FocusButton nextIndex
  else NoAction.

(** What [renderMinimap] paints: the background, then the calls made cell
    by cell. *)
Record Minimap := mkMinimap {
  minimap_background : string;
  minimap_cells : list DrawOp
}.

(** The body of the inner loop of [renderMinimap]. *)
Definition minimap_cell (m : Maze) (p : Player) (y x : Z) : list DrawOp :=
  let visited := hasVisited p x y in
  let wall := isWall m x y in
  (if wall then [mkDrawOp x y (FillRect "#333")]
   else if visited then [mkDrawOp x y (FillRect "#ADD8E6")]
   else []) ++
  (if bool_decide (x = cell_x (maze_start m)) &&
      bool_decide (y = cell_y (maze_start m))
   then [mkDrawOp x y (FillRect "#0000FF")]
   else if bool_decide (x = cell_x (maze_goal m)) &&
           bool_decide (y = cell_y (maze_goal m))
   then (if visited then [mkDrawOp x y (FillRect "#FF0000")] else [])
   else []) ++
  (if bool_decide (x = player_x p) && bool_decide (y = player_y p)
   then [mkDrawOp x y (FillArc "#4CAF50")] else []).

Definition renderMinimap (m : Maze) (p : Player) : Minimap :=
  mkMinimap "#333"
    (y ← seqZ 0 (maze_height m);
     x ← seqZ 0 (maze_width m);
     minimap_cell m p y x).

(** The minimap shows the cell [(x, y)] in the colour [style]. *)
Definition minimap_shows (m : Maze) (p : Player) (x y : Z) (style : string) : Prop :=
  mkDrawOp x y (FillRect style) ∈ minimap_cells (renderMinimap m p).

(* ===================================================================== *)
(** ** The older script, [script.js]: its main view *)
(* ===================================================================== *)

Module Legacy.

(** The body of the inner loop of [renderMaze] in [script.js]. *)
Definition draw_cell (m : Maze) (p : Player) (y x : Z) : list DrawOp :=
  let inView := isInView p x y in
  let visited := hasVisited p x y in
  if inView || visited then
    if isWall m x y then [mkDrawOp x y (FillRect "#333")]
    else
      [mkDrawOp x y (FillRect (if inView then "#fff" else "#f0f0f0"));
       mkDrawOp x y (StrokeRect "#ddd")] ++
      (if bool_decide (x = cell_x (maze_goal m)) &&
          bool_decide (y = cell_y (maze_goal m))
       then [mkDrawOp x y (FillInset "#F44336")] else [])
  else [].

(** [for (let y = 0; y < height; y++) for (let x = 0; x < width; x++)] *)
Definition draw_cells (m : Maze) (p : Player) : list DrawOp :=
  y ← seqZ 0 (maze_height m);
  x ← seqZ 0 (maze_width m);
  draw_cell m p y x.

Definition drawn (m : Maze) (p : Player) (x y : Z) : Prop :=
  ∃ op, op ∈ draw_cells m p ∧ op_x op = x ∧ op_y op = y.

End Legacy.

(* ===================================================================== *)
(** ** Notions used to state further properties *)
(* ===================================================================== *)

(** What the scan makes of a pixel. *)
Inductive Mark := MarkWall | MarkStart | MarkGoal | MarkPath.

#[global] Instance Mark_eq_dec : EqDecision Mark.
Proof. solve_decision. Defined.

Definition mark_of (img : ImageData) (c : Cell) : Mark :=
  if decide (Spec.pixel img c = Some Spec.wall_color) then MarkWall
  else if decide (Spec.pixel img c = Some Spec.start_color) then MarkStart
  else if decide (Spec.pixel img c = Some Spec.goal_color) then MarkGoal
  else MarkPath.

(** Two images of the same size whose pixels are marked alike. *)
Definition same_marks (img img' : ImageData) : bool :=
  bool_decide (img_width img = img_width img') &&
  bool_decide (img_height img = img_height img') &&
  forallb (λ c, bool_decide (mark_of img c = mark_of img' c)) (Spec.scan_order img).

Definition in_grid (width height : Z) (c : Cell) : Prop :=
  0 ≤ cell_x c < width ∧ 0 ≤ cell_y c < height.

(** The cells on the rim of the grid, and the mazes whose rim is all wall. *)
Definition border_cells (m : Maze) : list (Z * Z) :=
  y ← seqZ 0 (maze_height m);
  x ← seqZ 0 (maze_width m);
  if bool_decide (x = 0) || bool_decide (x = maze_width m - 1) ||
     bool_decide (y = 0) || bool_decide (y = maze_height m - 1)
  then [(x, y)] else [].

Definition border_walled (m : Maze) : bool :=
  forallb (λ c, isWall m c.1 c.2) (border_cells m).

(** A step of at most one cell along one axis, as the keys and buttons
    give. *)
Definition unit_step (d : Z * Z) : bool :=
  bool_decide (Z.abs d.1 + Z.abs d.2 ≤ 1).

Module MoreExamples.

(** The room again, with every sample of alpha 0 and the floor in shades of
    grey instead of white. *)
Definition black0 : list Z := [0; 0; 0; 0].
Definition blue0 : list Z := [0; 0; 255; 0].
Definition red0 : list Z := [255; 0; 0; 0].
Definition grey0 : list Z := [128; 128; 128; 0].
Definition dark0 : list Z := [1; 0; 0; 0].

Definition room_faded : ImageData :=
  Examples.image 5 5
    [black0; black0; black0; black0; black0;
     black0; blue0;  grey0;  dark0;  black0;
     black0; grey0;  grey0;  grey0;  black0;
     black0; dark0;  grey0;  red0;   black0;
     black0; black0; black0; black0; black0].

(** Levels 1 and 2 exist, level 3 is missing, level 4 exists. *)
Definition gapped : Assets := λ url,
  if decide (url = "maps/1.png") then Some Examples.room
  else if decide (url = "maps/2.png") then Some Examples.corridor
  else if decide (url = "maps/4.png") then Some Examples.tower
  else None.

End MoreExamples.

(** Two states of the game that differ at most in the cache of decoded
    mazes. *)
Definition same_but_cache (g g' : MazeGame) : Prop :=
  gameState g' = gameState g ∧ maze g' = maze g ∧ player g' = player g ∧
  cellSize g' = cellSize g ∧ mainCanvas g' = mainCanvas g ∧
  alerts g' = alerts g ∧ localStorage g' = localStorage g.

(** The game after the level in play has been completed by the player [p]:
    what [MazeGame.completeLevel] leaves. *)
Definition completed_game (p : Player) (g : MazeGame) : MazeGame :=
  let r := completeLevel (currentLevel (gameState g)) (visitedCells p)
                         (gameState g) in
  set_gameState
    (mkGameState (currentLevel r.1) (maxLevel r.1) (progress r.1) "clear")
    (set_localStorage r.2 (set_gameState r.1 g)).

(** The game after a call [movePlayer(dx, dy)] on the game screen, with the
    maze [m] and the player [p] in play. *)
Definition moved_game (dx dy : Z) (m : Maze) (p : Player) (g : MazeGame)
  : MazeGame :=
  let r := move dx dy m p in
  if r.2 then
    let g1 := set_mainCanvas (renderMaze m r.1) (set_player (Some r.1) g) in
    if isAtGoal r.1 m then completed_game r.1 g1 else g1
  else g.

(** The four steps of the control scheme. *)
Definition orthogonal_steps : list (Z * Z) := [(0, -1); (0, 1); (-1, 0); (1, 0)].

Module Wide.

(** A maze of 30 by 40 cells without walls, and a player in its middle. *)
Definition maze : Maze := new_Maze (mkMazeData 30 40 (mkCell 0 0) (mkCell 1 0) []).
Definition walker : Player := mkPlayer 15 20 ["0,0"; "15,20"].

End Wide.

(** A run of key presses on the game screen. *)
Definition press_keys (keys : list string) : Eff unit :=
  foldr (λ key rest, handleGameKeyPress key;; rest) (mret ()) keys.

(** A method call that never changes or drops an entry of the cache of
    decoded mazes. *)
Definition cache_kept (c : Eff unit) : Prop :=
  ∀ g key d, parsedMazes g !! key = Some d → parsedMazes (c g).2 !! key = Some d.

(** The cells the drawing loops of the main view cover: the cells of the
    maze inside the range [startX..endX] by [startY..endY] the loops run
    over (the cells on the screen). *)
Definition covered (m : Maze) (p : Player) (x y : Z) : Prop :=
  (startX (window m p) ≤ x ≤ endX (window m p) ∧
   startY (window m p) ≤ y ≤ endY (window m p)) ∧
  (0 ≤ x < maze_width m ∧ 0 ≤ y < maze_height m).

(* ===================================================================== *)
(** ** Strings: decimal renderings and comma-separated keys *)
(* ===================================================================== *)

Fixpoint all_chars (P : Ascii.ascii → bool) (s : string) : bool :=
  match s with
  | EmptyString => true
  | String c s' => P c && all_chars P s'
  end.

(** The characters of a rendered integer. *)
Definition num_char (c : Ascii.ascii) : bool :=
  bool_decide (c ∈ ["-"; "0"; "1"; "2"; "3"; "4"; "5"; "6"; "7"; "8"; "9"]%char).

Definition not_comma (c : Ascii.ascii) : bool :=
  negb (bool_decide (c = ","%char)).

Lemma all_chars_impl (P Q : Ascii.ascii → bool) s :
  (∀ c, P c = true → Q c = true) → all_chars P s = true → all_chars Q s = true.
Proof.
  intros HPQ. induction s as [|c s IH]; simpl; [done|].
  rewrite !andb_true_iff. intros [Hc Hs]. split; auto.
Qed.

Lemma pretty_N_char_num (d : N) : num_char (pretty_N_char d) = true.
Proof. unfold pretty_N_char. by repeat case_match. Qed.

Lemma pretty_N_go_chars (x : N) (s : string) :
  all_chars num_char s = true → all_chars num_char (pretty_N_go x s) = true.
Proof.
  revert s. induction (N.lt_wf_0 x) as [x _ IH]; intros s Hs.
  destruct (decide (x = 0)%N) as [->|Hx].
  - by rewrite pretty_N_go_0.
  - rewrite pretty_N_go_step by lia.
    apply IH.
    + apply N.div_lt; lia.
    + simpl. by rewrite pretty_N_char_num, Hs.
Qed.

Lemma pretty_N_chars (x : N) : all_chars num_char (pretty x) = true.
Proof.
  unfold pretty, pretty_N. case_decide; [done|].
  by apply pretty_N_go_chars.
Qed.

Lemma pretty_Z_chars (z : Z) : all_chars num_char (pretty z) = true.
Proof.
  destruct z as [|p|p]; unfold pretty, pretty_Z; simpl; [done|..].
  - apply pretty_N_chars.
  - apply pretty_N_chars.
Qed.

Lemma num_char_not_comma c : num_char c = true → not_comma c = true.
Proof.
  unfold not_comma. destruct (bool_decide (c = ","%char)) eqn:E; [|done].
  apply bool_decide_eq_true in E as ->. done.
Qed.

Lemma template_num_no_comma v : all_chars not_comma (template_num v) = true.
Proof.
  destruct v as [n|]; simpl; [|done].
  eapply all_chars_impl, pretty_Z_chars. apply num_char_not_comma.
Qed.

Lemma template_num_inj a b : template_num a = template_num b → a = b.
Proof.
  destruct a as [x|], b as [y|]; simpl; intros H.
  - f_equal. by apply (inj pretty).
  - pose proof (pretty_Z_chars x) as Hx. rewrite H in Hx. discriminate.
  - pose proof (pretty_Z_chars y) as Hy. rewrite <-H in Hy. discriminate.
  - done.
Qed.

Lemma append_String c s t : String c s +:+ t = String c (s +:+ t).
Proof. reflexivity. Qed.

Lemma append_empty t : "" +:+ t = t.
Proof. reflexivity. Qed.

(** Two keys [s1,t1] and [s2,t2] whose first parts hold no comma agree
    part by part. *)
Lemma comma_join_inj s1 s2 t1 t2 :
  all_chars not_comma s1 = true → all_chars not_comma s2 = true →
  s1 +:+ "," +:+ t1 = s2 +:+ "," +:+ t2 → s1 = s2 ∧ t1 = t2.
Proof.
  revert s2. induction s1 as [|c s1 IH]; intros [|d s2]; simpl;
    rewrite ?append_String, ?append_empty.
  - intros _ _ [= ->]. done.
  - rewrite andb_true_iff. intros _ [Hd _] [= <- _]. done.
  - rewrite andb_true_iff. intros [Hc _] _ [= -> _]. done.
  - rewrite !andb_true_iff. intros [_ H1] [_ H2] [= -> Heq].
    destruct (IH s2 H1 H2 Heq) as [-> ->]. done.
Qed.

Lemma colorKey_inj r g b r' g' b' :
  colorKey r g b = colorKey r' g' b' → r = r' ∧ g = g' ∧ b = b'.
Proof.
  unfold colorKey. intros H.
  apply comma_join_inj in H as [Hr H]; auto using template_num_no_comma.
  apply comma_join_inj in H as [Hg Hb]; auto using template_num_no_comma.
  auto using template_num_inj.
Qed.

Lemma cellKey_inj x y x' y' : cellKey x y = cellKey x' y' → x = x' ∧ y = y'.
Proof.
  unfold cellKey. intros H.
  apply comma_join_inj in H as [Hx Hy].
  - split; by apply (inj pretty).
  - apply (template_num_no_comma (Some x)).
  - apply (template_num_no_comma (Some x')).
Qed.

(* ===================================================================== *)
(** ** Sets of strings *)
(* ===================================================================== *)

Lemma StrSet_has_true s k : StrSet.has s k = true ↔ k ∈ s.
Proof. unfold StrSet.has. apply bool_decide_eq_true. Qed.

Lemma StrSet_has_false s k : StrSet.has s k = false ↔ k ∉ s.
Proof. unfold StrSet.has. apply bool_decide_eq_false. Qed.

Lemma StrSet_elem_of_add k k' s : k' ∈ StrSet.add k s ↔ k' = k ∨ k' ∈ s.
Proof.
  unfold StrSet.add. destruct (StrSet.has s k) eqn:E.
  - apply StrSet_has_true in E. split; [auto|]. intros [->|]; done.
  - rewrite elem_of_app, list_elem_of_singleton. tauto.
Qed.

Lemma StrSet_add_wf k s : StrSet.wf s → StrSet.wf (StrSet.add k s).
Proof.
  unfold StrSet.wf, StrSet.add. intros Hs. destruct (StrSet.has s k) eqn:E; [done|].
  apply StrSet_has_false in E. apply list.NoDup_app. split_and!; [done| |apply list.NoDup_singleton].
  intros x Hx Hx'. apply list_elem_of_singleton in Hx' as ->. done.
Qed.

Lemma StrSet_add_present k s : k ∈ s → StrSet.add k s = s.
Proof. intros H. unfold StrSet.add. apply StrSet_has_true in H. by rewrite H. Qed.

Lemma StrSet_add_fresh k s : k ∉ s → StrSet.add k s = (s ++ [k])%list.
Proof. intros H. unfold StrSet.add. apply StrSet_has_false in H. by rewrite H. Qed.

(** Adding the elements of a duplicate-free list, one after the other, to a
    set that holds none of them appends the list. *)
Lemma StrSet_fold_add_fresh (acc l : list string) :
  NoDup (acc ++ l) →
  foldl (λ s k, StrSet.add k s) acc l = (acc ++ l)%list.
Proof.
  revert acc. induction l as [|k l IH]; intros acc Hnd; simpl.
  - by rewrite app_nil_r.
  - rewrite StrSet_add_fresh.
    + rewrite IH; rewrite <-app_assoc; done.
    + apply list.NoDup_app in Hnd as (_ & Hdisj & _). intros Hin.
      apply (Hdisj k Hin). left.
Qed.

Lemma StrSet_elem_of_fold_add {A} (f : A → string) (acc : StrSet.t) (l : list A) k :
  k ∈ foldl (λ s a, StrSet.add (f a) s) acc l ↔ k ∈ acc ∨ ∃ a, a ∈ l ∧ f a = k.
Proof.
  revert acc. induction l as [|a l IH]; intros acc; simpl.
  - split; [auto|]. intros [|(a & Ha & _)]; [done|]. by apply elem_of_nil in Ha.
  - rewrite IH, StrSet_elem_of_add. split.
    + intros [[->|]|(b & Hb & <-)]; eauto using list_elem_of_here, list_elem_of_further.
    + intros [|(b & Hb & <-)]; [auto|].
      apply elem_of_cons in Hb as [->|]; eauto.
Qed.

Lemma StrSet_fold_add_wf {A} (f : A → string) (acc : StrSet.t) (l : list A) :
  StrSet.wf acc → StrSet.wf (foldl (λ s a, StrSet.add (f a) s) acc l).
Proof.
  revert acc. induction l as [|a l IH]; intros acc Hacc; simpl; [done|].
  apply IH. by apply StrSet_add_wf.
Qed.

Lemma StrSet_of_array_wf l : StrSet.wf (StrSet.of_array l).
Proof. apply (StrSet_fold_add_wf id). apply NoDup_nil_2. Qed.

Lemma StrSet_of_to_array s : StrSet.wf s → StrSet.of_array (StrSet.to_array s) = s.
Proof.
  intros Hs. unfold StrSet.of_array, StrSet.to_array, StrSet.empty.
  by rewrite StrSet_fold_add_fresh.
Qed.

(* ===================================================================== *)
(** ** The decoder *)
(* ===================================================================== *)

(** The three reserved keys are the keys of the three reserved colours. *)
Lemma colorKey_is (r g b : option Z) (col : Spec.RGB) :
  colorKey r g b = colorKey (Some col.1.1) (Some col.1.2) (Some col.2) ↔
  r = Some col.1.1 ∧ g = Some col.1.2 ∧ b = Some col.2.
Proof.
  split.
  - apply colorKey_inj.
  - by intros (-> & -> & ->).
Qed.

Lemma pixel_is (img : ImageData) (c : Cell) (col : Spec.RGB) :
  let i := (cell_y c * img_width img + cell_x c) * 4 in
  colorKey (sample img i) (sample img (i + 1)) (sample img (i + 2))
    = colorKey (Some col.1.1) (Some col.1.2) (Some col.2)
  ↔ Spec.pixel img c = Some col.
Proof.
  intros i. rewrite colorKey_is. unfold Spec.pixel. fold i.
  destruct col as [[r g] b]; simpl.
  destruct (sample img i), (sample img (i + 1)), (sample img (i + 2));
    (split; [intros (? & ? & ?); simplify_eq; done | intros ?; simplify_eq; done]).
Qed.

Lemma scan_pixel_classify img y st x :
  scan_pixel img y st x = classify img st (mkCell x y).
Proof.
  unfold scan_pixel, classify.
  pose proof (pixel_is img (mkCell x y) Spec.wall_color) as Hw.
  pose proof (pixel_is img (mkCell x y) Spec.start_color) as Hs.
  pose proof (pixel_is img (mkCell x y) Spec.goal_color) as Hg.
  simpl in Hw, Hs, Hg.
  change (colorKey (Some 0) (Some 0) (Some 0)) with COLOR_MAP.WALL in Hw.
  change (colorKey (Some 0) (Some 0) (Some 255)) with COLOR_MAP.START in Hs.
  change (colorKey (Some 255) (Some 0) (Some 0)) with COLOR_MAP.GOAL in Hg.
  repeat case_decide; tauto.
Qed.

Lemma foldl_bind {A B C} (f : A → C → A) (g : B → list C) (a : A) (l : list B) :
  foldl f a (l ≫= g) = foldl (λ a' b, foldl f a' (g b)) a l.
Proof.
  revert a. induction l as [|b l IH]; intros a; simpl; [done|].
  by rewrite foldl_app, IH.
Qed.

Lemma foldl_pointwise {A B} (f g : A → B → A) (a : A) (l : list B) :
  (∀ a' b, f a' b = g a' b) → foldl f a l = foldl g a l.
Proof.
  intros Hfg. revert a. induction l as [|b l IH]; intros a; simpl; [done|].
  by rewrite Hfg, IH.
Qed.

(** The two nested loops visit the cells in row-major order. *)
Lemma scan_image_order img :
  scan_image img = foldl (classify img) scan_init (Spec.scan_order img).
Proof.
  unfold scan_image, Spec.scan_order. rewrite foldl_bind.
  apply foldl_pointwise. intros st y. unfold scan_row. rewrite foldl_bind.
  apply foldl_pointwise. intros st' x. simpl. apply scan_pixel_classify.
Qed.

Lemma pixel_colors_apart img c :
  ¬ (Spec.pixel img c = Some Spec.wall_color ∧ Spec.pixel img c = Some Spec.start_color) ∧
  ¬ (Spec.pixel img c = Some Spec.wall_color ∧ Spec.pixel img c = Some Spec.goal_color) ∧
  ¬ (Spec.pixel img c = Some Spec.start_color ∧ Spec.pixel img c = Some Spec.goal_color).
Proof. split_and!; intros [-> [=]]. Qed.

(** What a run of the scan over any list of cells leaves in the three
    variables. *)
Lemma classify_run img (cells : list Cell) (st : Scan) :
  let st' := foldl (classify img) st cells in
  scan_walls st' =
    (scan_walls st ++ filter (λ c, Spec.pixel img c = Some Spec.wall_color) cells)%list ∧
  scan_start st' =
    match list.last (filter (λ c, Spec.pixel img c = Some Spec.start_color) cells) with
    | Some c => Some c
    | None => scan_start st
    end ∧
  scan_goal st' =
    match list.last (filter (λ c, Spec.pixel img c = Some Spec.goal_color) cells) with
    | Some c => Some c
    | None => scan_goal st
    end.
Proof.
  induction cells as [|c cells IH] using rev_ind; simpl.
  - by rewrite app_nil_r.
  - rewrite foldl_snoc, !list.filter_app, !filter_cons, !filter_nil.
    destruct IH as (IHw & IHs & IHg).
    destruct (pixel_colors_apart img c) as (Hws & Hwg & Hsg).
    unfold classify at 1 3 5.
    repeat case_decide; simpl;
      rewrite ?app_nil_r, ?last_snoc, ?IHw, ?IHs, ?IHg, ?app_assoc;
      try tauto; done.
Qed.

Lemma scan_image_result img :
  scan_walls (scan_image img) = Spec.matching img Spec.wall_color ∧
  scan_start (scan_image img) = list.last (Spec.matching img Spec.start_color) ∧
  scan_goal (scan_image img) = list.last (Spec.matching img Spec.goal_color).
Proof.
  rewrite scan_image_order.
  destruct (classify_run img (Spec.scan_order img) scan_init) as (Hw & Hs & Hg).
  unfold Spec.matching. split_and!.
  - by rewrite Hw.
  - rewrite Hs. clear. by case_match.
  - rewrite Hg. clear. by case_match.
Qed.

Lemma parse_loaded_decode imageUrl img :
  parse_loaded imageUrl img = Spec.decode imageUrl img.
Proof.
  destruct (scan_image_result img) as (Hw & Hs & Hg).
  unfold parse_loaded, Spec.decode. by rewrite Hw, Hs, Hg.
Qed.

(** C2. The decoder does what the specification says of it: the two loops
    visit the pixels in row-major order; a pixel is a wall, the start or the
    goal exactly when its three colour samples are (0,0,0), (0,0,255) or
    (255,0,0), and any other pixel leaves no trace; the wall list is the
    list of all wall-coloured pixels; the start (the goal) is the last
    start-coloured (goal-coloured) pixel in scan order, however many there
    are; and the result is that of the specification's [decode]. *)
Theorem C2_decode_refines_spec (imageUrl : string) (img : ImageData) :
  scan_image img = foldl (classify img) scan_init (Spec.scan_order img) ∧
  scan_walls (scan_image img) = Spec.matching img Spec.wall_color ∧
  scan_start (scan_image img) = list.last (Spec.matching img Spec.start_color) ∧
  scan_goal (scan_image img) = list.last (Spec.matching img Spec.goal_color) ∧
  parse_loaded imageUrl img = Spec.decode imageUrl img.
Proof.
  split; [apply scan_image_order|].
  destruct (scan_image_result img) as (Hw & Hs & Hg).
  split_and!; [done..|apply parse_loaded_decode].
Qed.

(** The room of the specification's scenario decodes to its sixteen border
    walls, the start (1,1) and the goal (3,3). *)
Example decode_room :
  parseMazeFromImage (Examples.only Examples.room) "maps/1.png"
  = Normal Examples.room_data.
Proof. vm_compute. reflexivity. Qed.

(** With two start pixels and two goal pixels the later ones win and
    nothing is thrown. *)
Example decode_twice :
  parse_loaded "maps/1.png" Examples.twice
  = Normal (mkMazeData 5 1 (mkCell 2 0) (mkCell 3 0) [mkCell 4 0]).
Proof. vm_compute. reflexivity. Qed.

Lemma parse_loaded_Normal imageUrl img d :
  parse_loaded imageUrl img = Normal d →
  data_width d = img_width img ∧
  data_height d = img_height img ∧
  data_walls d = Spec.matching img Spec.wall_color ∧
  list.last (Spec.matching img Spec.start_color) = Some (data_start d) ∧
  list.last (Spec.matching img Spec.goal_color) = Some (data_goal d).
Proof.
  rewrite parse_loaded_decode. unfold Spec.decode.
  destruct (list.last (Spec.matching img Spec.start_color)) as [s|]; [|done].
  destruct (list.last (Spec.matching img Spec.goal_color)) as [g|]; [|done].
  intros [= <-]. done.
Qed.

Lemma elem_of_matching img col c :
  c ∈ Spec.matching img col ↔ Spec.pixel img c = Some col ∧ c ∈ Spec.scan_order img.
Proof.
  unfold Spec.matching.
  apply (list_elem_of_filter (λ c', Spec.pixel img c' = Some col)).
Qed.

Lemma matching_nil img col :
  Spec.matching img col = [] ↔
  ∀ c, c ∈ Spec.scan_order img → Spec.pixel img c ≠ Some col.
Proof.
  split.
  - intros Hnil c Hc Hpix.
    assert (c ∈ Spec.matching img col) as Hin by by apply elem_of_matching.
    rewrite Hnil in Hin. by apply elem_of_nil in Hin.
  - intros Hnone. destruct (Spec.matching img col) as [|c l] eqn:E; [done|].
    assert (c ∈ Spec.matching img col) as Hin by (rewrite E; left).
    apply elem_of_matching in Hin as [Hpix Hc]. by destruct (Hnone c Hc).
Qed.

Lemma parseMazeFromImage_Normal assets imageUrl d :
  parseMazeFromImage assets imageUrl = Normal d →
  ∃ img, assets imageUrl = Some img ∧ parse_loaded imageUrl img = Normal d.
Proof.
  unfold parseMazeFromImage. destruct (assets imageUrl) as [img|]; [|done].
  eauto.
Qed.

Lemma decoded_start_not_wall assets imageUrl d :
  parseMazeFromImage assets imageUrl = Normal d → data_start d ∉ data_walls d.
Proof.
  intros (img & _ & Hd)%parseMazeFromImage_Normal.
  apply parse_loaded_Normal in Hd as (_ & _ & -> & Hs & _).
  apply last_Some_elem_of, elem_of_matching in Hs as [Hs _].
  intros [Hw _]%elem_of_matching. rewrite Hs in Hw. discriminate.
Qed.

(** C4. Whenever an image decodes, the start is not in the wall list, the
    goal is not in the wall list, and the start and the goal are different
    cells. *)
Theorem C4_decoded_landmarks (assets : Assets) (imageUrl : string) (d : MazeData) :
  parseMazeFromImage assets imageUrl = Normal d →
  (data_start d ∉ data_walls d) ∧
  (data_goal d ∉ data_walls d) ∧
  data_start d ≠ data_goal d.
Proof.
  intros Hparse. split; [by eapply decoded_start_not_wall|].
  apply parseMazeFromImage_Normal in Hparse as (img & _ & Hd).
  apply parse_loaded_Normal in Hd as (_ & _ & -> & Hs & Hg).
  apply last_Some_elem_of, elem_of_matching in Hs as [Hs _].
  apply last_Some_elem_of, elem_of_matching in Hg as [Hg _].
  split.
  - intros [Hw _]%elem_of_matching. rewrite Hg in Hw. discriminate.
  - intros Heq. rewrite Heq, Hg in Hs. discriminate.
Qed.

Lemma C4_decoded_landmarks_witness :
  parseMazeFromImage (Examples.only Examples.room) "maps/1.png"
    = Normal Examples.room_data ∧
  (data_start Examples.room_data ∉ data_walls Examples.room_data) ∧
  (data_goal Examples.room_data ∉ data_walls Examples.room_data) ∧
  data_start Examples.room_data ≠ data_goal Examples.room_data.
Proof.
  assert (parseMazeFromImage (Examples.only Examples.room) "maps/1.png"
          = Normal Examples.room_data) as H by (vm_compute; reflexivity).
  split; [exact H|].
  exact (C4_decoded_landmarks (Examples.only Examples.room) "maps/1.png"
           Examples.room_data H).
Defined.

(** C5, as the code has it. An image that loads but in which no pixel has
    the start colour, or no pixel has the goal colour (so, any image with no
    blue pixel), is not decoded: the promise is rejected with an [Error]
    whose message is one fixed sentence around the image's URL, saying that
    the start or the goal was not found.  The message is the same whichever
    of the two is missing. *)
Theorem C5_missing_landmark_rejected
    (assets : Assets) (imageUrl : string) (img : ImageData) :
  assets imageUrl = Some img →
  (∀ c, c ∈ Spec.scan_order img → Spec.pixel img c ≠ Some Spec.start_color) ∨
  (∀ c, c ∈ Spec.scan_order img → Spec.pixel img c ≠ Some Spec.goal_color) →
  parseMazeFromImage assets imageUrl
    = Throw (mkError (missing_landmark_message imageUrl)) ∧
  (∀ d, parseMazeFromImage assets imageUrl ≠ Normal d) ∧
  ∃ before after,
    (∀ url, missing_landmark_message url = before +:+ url +:+ after) ∧
    message (mkError (missing_landmark_message imageUrl))
      = before +:+ imageUrl +:+ after.
Proof.
  intros Himg Hmissing.
  assert (parseMazeFromImage assets imageUrl
          = Throw (mkError (missing_landmark_message imageUrl))) as Hthrow.
  { unfold parseMazeFromImage. rewrite Himg, parse_loaded_decode.
    unfold Spec.decode.
    destruct Hmissing as [H%matching_nil|H%matching_nil]; rewrite H; simpl.
    - done.
    - by case_match. }
  split; [done|]. split.
  - intros d. rewrite Hthrow. discriminate.
  - eexists _, _. split; [intros url; reflexivity|reflexivity].
Qed.

Lemma C5_missing_landmark_rejected_witness :
  parseMazeFromImage (Examples.only Examples.no_start) "maps/7.png"
    = Throw (mkError (missing_landmark_message "maps/7.png")).
Proof.
  refine (proj1 (C5_missing_landmark_rejected
                   (Examples.only Examples.no_start) "maps/7.png"
                   Examples.no_start eq_refl _)).
  left. apply matching_nil. vm_compute. reflexivity.
Defined.

(** C5 as stated fails: an image without a start (but with a goal) and an
    image without a goal (but with a start) are rejected with the very same
    error, so the error cannot tell which landmark is absent. *)
Lemma C5_error_names_no_landmark :
  Spec.matching Examples.no_start Spec.start_color = [] ∧
  Spec.matching Examples.no_start Spec.goal_color = [mkCell 2 0] ∧
  Spec.matching Examples.no_goal Spec.start_color = [mkCell 1 0] ∧
  Spec.matching Examples.no_goal Spec.goal_color = [] ∧
  parse_loaded "maps/7.png" Examples.no_start
    = parse_loaded "maps/7.png" Examples.no_goal ∧
  ¬ ∃ absent : Error → bool * bool,
      ∀ imageUrl img e,
        parse_loaded imageUrl img = Throw e →
        absent e = (bool_decide (Spec.matching img Spec.start_color = []),
                    bool_decide (Spec.matching img Spec.goal_color = [])).
Proof.
  split_and!; try (vm_compute; reflexivity).
  intros [absent Habsent].
  pose proof (Habsent "maps/7.png" Examples.no_start _ eq_refl) as H1.
  pose proof (Habsent "maps/7.png" Examples.no_goal _ eq_refl) as H2.
  vm_compute in H1, H2. rewrite H1 in H2. discriminate.
Qed.

(* ===================================================================== *)
(** ** The maze and the player *)
(* ===================================================================== *)

(** The wall set of a maze holds exactly the keys of the decoded wall
    cells. *)
Lemma maze_walls_cells (d : MazeData) (x y : Z) :
  cellKey x y ∈ maze_walls (new_Maze d) ↔ mkCell x y ∈ data_walls d.
Proof.
  unfold new_Maze; simpl.
  rewrite (StrSet_elem_of_fold_add (λ w, cellKey (cell_x w) (cell_y w))).
  split.
  - intros [H|([x' y'] & Hin & Hkey)]; [by apply elem_of_nil in H|].
    simpl in Hkey. apply cellKey_inj in Hkey as [-> ->]. done.
  - intros Hin. right. by exists (mkCell x y).
Qed.

Lemma isWall_true m x y : isWall m x y = true ↔ cellKey x y ∈ maze_walls m.
Proof. apply StrSet_has_true. Qed.

Lemma isWall_false m x y : isWall m x y = false ↔ cellKey x y ∉ maze_walls m.
Proof. apply StrSet_has_false. Qed.

Lemma isWall_new_Maze d x y :
  isWall (new_Maze d) x y = true ↔ mkCell x y ∈ data_walls d.
Proof. by rewrite isWall_true, maze_walls_cells. Qed.

Lemma hasVisited_true p x y : hasVisited p x y = true ↔ cellKey x y ∈ visitedCells p.
Proof. apply StrSet_has_true. Qed.

Lemma move_commit dx dy m p :
  isWall m (player_x p + dx) (player_y p + dy) = false →
  move dx dy m p
  = (mkPlayer (player_x p + dx) (player_y p + dy)
              (StrSet.add (cellKey (player_x p + dx) (player_y p + dy))
                          (visitedCells p)), true).
Proof. unfold move. intros ->. done. Qed.

Lemma move_reject dx dy m p :
  isWall m (player_x p + dx) (player_y p + dy) = true →
  move dx dy m p = (p, false).
Proof. unfold move. intros ->. done. Qed.

Lemma move_reject_iter dx dy m p n :
  isWall m (player_x p + dx) (player_y p + dy) = true →
  Nat.iter n (λ q, (move dx dy m q).1) p = p.
Proof.
  intros Hwall. induction n as [|n IH]; simpl; [done|].
  by rewrite IH, move_reject.
Qed.

(** C3. A call [move(dx, dy, maze)] looks at the candidate cell
    (x+dx, y+dy).  If it is not in the maze's wall set the move commits: the
    player stands on the candidate, the candidate has been added to the
    visited set (so it is visited, and nothing else changed there), and
    [true] is returned.  If it is in the wall set, [false] is returned and
    the player is unchanged; calling [move] into that wall any number of
    times leaves the position, the visited set and its size as they were. *)
Theorem C3_move_commits_or_rejects (m : Maze) (p : Player) (dx dy : Z) :
  let x' := player_x p + dx in
  let y' := player_y p + dy in
  (cellKey x' y' ∉ maze_walls m →
     move dx dy m p
       = (mkPlayer x' y' (StrSet.add (cellKey x' y') (visitedCells p)), true) ∧
     hasVisited (move dx dy m p).1 x' y' = true ∧
     (∀ k, k ∈ visitedCells (move dx dy m p).1 ↔ k = cellKey x' y' ∨ k ∈ visitedCells p)) ∧
  (cellKey x' y' ∈ maze_walls m →
     move dx dy m p = (p, false) ∧
     ∀ n, let q := Nat.iter n (λ q, (move dx dy m q).1) p in
          q = p ∧
          (player_x q, player_y q) = (player_x p, player_y p) ∧
          StrSet.size (visitedCells q) = StrSet.size (visitedCells p)).
Proof.
  intros x' y'. split.
  - intros Hfree%isWall_false. rewrite (move_commit _ _ _ _ Hfree). simpl.
    fold x' y'. split_and!; [done| |].
    + apply hasVisited_true. simpl. apply StrSet_elem_of_add. by left.
    + intros k. apply StrSet_elem_of_add.
  - intros Hwall%isWall_true. split; [by apply move_reject|].
    intros n q. subst q. by rewrite move_reject_iter.
Qed.

Lemma C3_move_commits_or_rejects_witness :
  let m := new_Maze Examples.room_data in
  let p := new_Player 1 1 in
  move 1 0 m p = (mkPlayer 2 1 ["1,1"; "2,1"], true) ∧
  move (-1) 0 m p = (p, false) ∧
  Nat.iter 3 (λ q, (move (-1) 0 m q).1) p = p.
Proof.
  intros m p.
  pose proof (C3_move_commits_or_rejects m p 1 0) as [Hcommit _].
  pose proof (C3_move_commits_or_rejects m p (-1) 0) as [_ Hreject].
  assert (cellKey (player_x p + 1) (player_y p + 0) ∉ maze_walls m) as Hfree.
  { apply (proj1 (bool_decide_eq_false _)). vm_compute. reflexivity. }
  assert (cellKey (player_x p + -1) (player_y p + 0) ∈ maze_walls m) as Hwall.
  { apply (proj1 (bool_decide_eq_true _)). vm_compute. reflexivity. }
  destruct (Hcommit Hfree) as (Hmove & _).
  destruct (Hreject Hwall) as (Hstay & Hiter).
  split_and!.
  - rewrite Hmove. vm_compute. reflexivity.
  - exact Hstay.
  - exact (proj1 (Hiter 3%nat)).
Defined.

(** C9. [isWall] only looks the key up in the wall set, so for a cell
    outside the grid that is not in the wall set it answers [false] (while
    [isValidMove] answers [false] too, for the bounds); and [move], which
    asks [isWall] alone, commits a move onto such a cell and returns
    [true]. *)
Theorem C9_out_of_bounds_is_no_wall (m : Maze) (x y : Z) :
  ¬ (0 ≤ x < maze_width m ∧ 0 ≤ y < maze_height m) →
  cellKey x y ∉ maze_walls m →
  isWall m x y = false ∧
  isValidMove m x y = false ∧
  ∀ (p : Player) (dx dy : Z),
    player_x p + dx = x → player_y p + dy = y →
    move dx dy m p
      = (mkPlayer x y (StrSet.add (cellKey x y) (visitedCells p)), true).
Proof.
  intros Hout Hfree%isWall_false. split_and!; [done| |].
  - unfold isValidMove. rewrite !andb_false_iff, !bool_decide_eq_false. lia.
  - intros p dx dy <- <-. by apply move_commit.
Qed.

Lemma C9_out_of_bounds_is_no_wall_witness :
  let m := new_Maze (mkMazeData 30 1 (mkCell 1 0) (mkCell 29 0) []) in
  isWall m 1 (-1) = false ∧
  move 0 (-1) m (new_Player 1 0) = (mkPlayer 1 (-1) ["1,0"; "1,-1"], true).
Proof.
  intros m.
  assert (¬ (0 ≤ 1 < maze_width m ∧ 0 ≤ -1 < maze_height m)) as Hout
    by (simpl; lia).
  assert (cellKey 1 (-1) ∉ maze_walls m) as Hfree by (simpl; apply not_elem_of_nil).
  destruct (C9_out_of_bounds_is_no_wall m 1 (-1) Hout Hfree) as (Hw & _ & Hmove).
  split; [exact Hw|].
  rewrite (Hmove (new_Player 1 0) 0 (-1) eq_refl eq_refl).
  vm_compute. reflexivity.
Defined.

(** The scan visits exactly the cells of the image. *)
Lemma elem_of_scan_order img c :
  c ∈ Spec.scan_order img ↔
  0 ≤ cell_x c < img_width img ∧ 0 ≤ cell_y c < img_height img.
Proof.
  unfold Spec.scan_order. rewrite list_elem_of_bind. split.
  - intros (y & (x & Hc & Hx%elem_of_seqZ)%list_elem_of_bind & Hy%elem_of_seqZ).
    apply list_elem_of_singleton in Hc as ->. simpl. lia.
  - intros [Hx Hy]. exists (cell_y c). split; [|apply elem_of_seqZ; lia].
    apply list_elem_of_bind. exists (cell_x c). split; [|apply elem_of_seqZ; lia].
    destruct c. simpl. apply list_elem_of_singleton. done.
Qed.

(** The cells the decoder lists as walls lie inside the image, so for a
    decoded maze no cell outside the grid is a wall. *)
Lemma decoded_walls_in_bounds assets imageUrl d x y :
  parseMazeFromImage assets imageUrl = Normal d →
  isWall (new_Maze d) x y = true →
  0 ≤ x < data_width d ∧ 0 ≤ y < data_height d.
Proof.
  intros (img & _ & Hd)%parseMazeFromImage_Normal Hwall%isWall_new_Maze.
  apply parse_loaded_Normal in Hd as (-> & -> & Hw & _).
  rewrite Hw in Hwall. apply elem_of_matching in Hwall as [_ Hin].
  by apply elem_of_scan_order in Hin.
Qed.

Lemma move_keeps_off_walls dx dy m p :
  isWall m (player_x p) (player_y p) = false →
  isWall m (player_x (move dx dy m p).1) (player_y (move dx dy m p).1) = false.
Proof.
  intros Hp. unfold move.
  destruct (isWall m (player_x p + dx) (player_y p + dy)) eqn:E; simpl; done.
Qed.

Lemma moves_snoc m p steps d :
  moves m p (steps ++ [d]) = (move d.1 d.2 m (moves m p steps)).1.
Proof. unfold moves. by rewrite foldl_snoc. Qed.

Lemma moves_keep_off_walls m p steps :
  isWall m (player_x p) (player_y p) = false →
  isWall m (player_x (moves m p steps)) (player_y (moves m p steps)) = false.
Proof.
  intros Hp. induction steps as [|d steps IH] using rev_ind; [done|].
  rewrite moves_snoc. by apply move_keeps_off_walls.
Qed.

(** C10. Take any maze that was decoded from an image and a player made at
    its start cell.  The player does not stand on a wall then, and after any
    run of [move] calls, with any steps, it still does not: its cell is not
    in the maze's wall set, nor in the decoded wall list. *)
Theorem C10_player_never_on_wall
    (assets : Assets) (imageUrl : string) (d : MazeData) :
  parseMazeFromImage assets imageUrl = Normal d →
  let m := new_Maze d in
  let p0 := new_Player (cell_x (maze_start m)) (cell_y (maze_start m)) in
  isWall m (player_x p0) (player_y p0) = false ∧
  ∀ steps : list (Z * Z),
    let p := moves m p0 steps in
    isWall m (player_x p) (player_y p) = false ∧
    (cellKey (player_x p) (player_y p) ∉ maze_walls m) ∧
    (mkCell (player_x p) (player_y p) ∉ data_walls d).
Proof.
  intros Hparse m p0.
  assert (isWall m (player_x p0) (player_y p0) = false) as H0.
  { apply not_true_is_false. intros Hw%isWall_new_Maze. simpl in Hw.
    apply (decoded_start_not_wall _ _ _ Hparse). by destruct (data_start d). }
  split; [done|]. intros steps p.
  pose proof (moves_keep_off_walls m p0 steps H0) as Hp. fold p in Hp.
  split_and!; [done|by apply isWall_false|].
  intros Hin%isWall_new_Maze. fold m in Hin. congruence.
Qed.

Lemma C10_player_never_on_wall_witness :
  let m := new_Maze Examples.room_data in
  let p := moves m (new_Player 1 1) [(1, 0); (-1, 0); (-1, 0); (0, 1); (0, -1); (0, -1)] in
  (player_x p, player_y p) = (1, 1) ∧
  isWall m (player_x p) (player_y p) = false.
Proof.
  intros m p. split; [vm_compute; reflexivity|].
  assert (parseMazeFromImage (Examples.only Examples.room) "maps/1.png"
          = Normal Examples.room_data) as H by (vm_compute; reflexivity).
  destruct (C10_player_never_on_wall _ _ _ H) as [_ Hall].
  exact (proj1 (Hall [(1, 0); (-1, 0); (-1, 0); (0, 1); (0, -1); (0, -1)])).
Defined.

(* ===================================================================== *)
(** ** The progress store *)
(* ===================================================================== *)

Lemma markVisited_wf p : StrSet.wf (visitedCells p) → StrSet.wf (visitedCells (markVisited p)).
Proof. apply StrSet_add_wf. Qed.

Lemma move_wf dx dy m p :
  StrSet.wf (visitedCells p) → StrSet.wf (visitedCells (move dx dy m p).1).
Proof.
  intros Hp. unfold move. case_match; simpl; [|done].
  by apply StrSet_add_wf.
Qed.

(** Every visited set a player can have is a set: it holds no key twice. *)
Lemma visited_wf m startX startY steps :
  StrSet.wf (visitedCells (moves m (new_Player startX startY) steps)).
Proof.
  induction steps as [|d steps IH] using rev_ind.
  - simpl. apply StrSet_add_wf, NoDup_nil_2.
  - rewrite moves_snoc. by apply move_wf.
Qed.

(** The keys of a visited set are the keys of cells, and a key stands for
    one cell only ([cellKey_inj]). *)
Lemma visited_keys_are_cells m startX startY steps k :
  k ∈ visitedCells (moves m (new_Player startX startY) steps) →
  ∃ x y, k = cellKey x y.
Proof.
  induction steps as [|d steps IH] using rev_ind.
  - simpl. intros [->|Hk]%StrSet_elem_of_add; [eauto|by apply elem_of_nil in Hk].
  - rewrite moves_snoc. unfold move. case_match; simpl; [|done].
    intros [->|Hk]%StrSet_elem_of_add; eauto.
Qed.

Lemma getCompletedPath_completeLevel level visited gs :
  getCompletedPath level (completeLevel level visited gs).1
  = StrSet.of_array (StrSet.to_array visited).
Proof.
  unfold getCompletedPath, completeLevel. simpl. by rewrite lookup_insert_eq.
Qed.

Lemma getCompletedPath_reload level visited gs :
  getCompletedPath level (new_GameState (completeLevel level visited gs).2)
  = StrSet.of_array (StrSet.to_array visited).
Proof.
  unfold getCompletedPath, completeLevel, new_GameState. simpl.
  by rewrite lookup_insert_eq.
Qed.

(** C6. Writing a visited set to the path format (the array of its "x,y"
    keys that [completeLevel] stores) and reading it back (the [Set] that
    [getCompletedPath] builds from the array) gives the set again: the same
    keys in the same order.  This holds when the path is read from the
    progress object in memory and when it is read after the progress has
    been saved and loaded again. *)
Theorem C6_visited_path_roundtrip (level : Z) (visited : StrSet.t) (gs : GameState) :
  StrSet.wf visited →
  StrSet.of_array (StrSet.to_array visited) = visited ∧
  getCompletedPath level (completeLevel level visited gs).1 = visited ∧
  getCompletedPath level (new_GameState (completeLevel level visited gs).2)
    = visited.
Proof.
  intros Hwf.
  rewrite getCompletedPath_completeLevel, getCompletedPath_reload.
  by rewrite StrSet_of_to_array.
Qed.

Lemma C6_visited_path_roundtrip_witness :
  let visited := ["1,1"; "2,1"; "2,2"; "3,3"] in
  let gs := new_GameState None in
  getCompletedPath 1 (new_GameState (completeLevel 1 visited gs).2) = visited.
Proof.
  intros visited gs.
  assert (StrSet.wf visited) as Hwf.
  { unfold StrSet.wf. apply (bool_decide_unpack (NoDup visited)).
    vm_compute. exact I. }
  exact (proj2 (proj2 (C6_visited_path_roundtrip 1 visited gs Hwf))).
Defined.

(** The same for the visited set of any player, whatever its moves. *)
Lemma visited_path_roundtrip_player m startX startY steps level gs :
  let visited := visitedCells (moves m (new_Player startX startY) steps) in
  getCompletedPath level (new_GameState (completeLevel level visited gs).2)
  = visited.
Proof.
  intros visited. rewrite getCompletedPath_reload.
  apply StrSet_of_to_array, visited_wf.
Qed.

(* ===================================================================== *)
(** ** The camera window *)
(* ===================================================================== *)

Example decode_corridor :
  parseMazeFromImage (Examples.only Examples.corridor) "maps/2.png"
  = Normal Mazes.corridor_data.
Proof. vm_compute. reflexivity. Qed.

Example decode_tower :
  parseMazeFromImage (Examples.only Examples.tower) "maps/3.png"
  = Normal Mazes.tower_data.
Proof. vm_compute. reflexivity. Qed.

Lemma camera_window m p :
  camera_follow m = true →
  window m p =
    let ox := Z.min (maze_width m - 25) (Z.max 0 (player_x p - 12)) in
    let oy := Z.min (maze_height m - 25) (Z.max 0 (player_y p - 12)) in
    mkWindow ox oy (ox + 25 - 1) (oy + 25 - 1).
Proof.
  unfold camera_follow, window. intros H%negb_true_iff. rewrite H. reflexivity.
Qed.

Lemma whole_window m p :
  camera_follow m = false →
  window m p = mkWindow 0 0 (maze_width m - 1) (maze_height m - 1).
Proof.
  unfold camera_follow, window. intros H%negb_false_iff. rewrite H. reflexivity.
Qed.

(** In the camera branch the window always holds the player's cell and its
    origin never passes [axisSize - 25]; the origin is not negative on an
    axis that is at least 25 cells long. *)
Lemma camera_window_sound m p :
  camera_follow m = true →
  0 ≤ player_x p < maze_width m →
  0 ≤ player_y p < maze_height m →
  let w := window m p in
  (startX w ≤ player_x p ≤ endX w ∧ startY w ≤ player_y p ≤ endY w) ∧
  (startX w ≤ maze_width m - MAX_VISIBLE_CELLS ∧
   startY w ≤ maze_height m - MAX_VISIBLE_CELLS) ∧
  (MAX_VISIBLE_CELLS ≤ maze_width m → 0 ≤ startX w) ∧
  (MAX_VISIBLE_CELLS ≤ maze_height m → 0 ≤ startY w).
Proof.
  intros Hcam Hx Hy. rewrite (camera_window _ _ Hcam). simpl.
  unfold MAX_VISIBLE_CELLS. lia.
Qed.

(** C1 at a narrow, tall maze. The image [Examples.tower] is 10 cells wide
    and 30 high, so the camera branch is taken; with the player on its start
    cell (0,0), which is inside the maze, the window's origin on the x axis
    is 10 - 25 = -15: the clamp to 0 is undone by the clamp to
    [W_MAZE - W_VIEW] that follows it. *)
Theorem C1_window_origin_negative :
  let m := new_Maze Mazes.tower_data in
  let p := new_Player (cell_x (maze_start m)) (cell_y (maze_start m)) in
  camera_follow m = true ∧
  (0 ≤ player_x p < maze_width m ∧ 0 ≤ player_y p < maze_height m) ∧
  window m p = mkWindow (-15) 0 9 24 ∧
  startX (window m p) < 0.
Proof. vm_compute. repeat split; congruence. Qed.

(* ===================================================================== *)
(** ** The main view *)
(* ===================================================================== *)

(** The spotlight is the 3x3 block around the player: the cells at
    Chebyshev distance at most 1. *)
Lemma isInView_chebyshev p x y :
  isInView p x y = true ↔
  Z.max (Z.abs (x - player_x p)) (Z.abs (y - player_y p)) ≤ 1.
Proof.
  unfold isInView, viewRange.
  rewrite andb_true_iff, !bool_decide_eq_true. lia.
Qed.

Lemma draw_cell_at m p y x op :
  op ∈ draw_cell m p y x → op_x op = x ∧ op_y op = y.
Proof.
  unfold draw_cell. repeat case_match; simpl;
    rewrite ?elem_of_cons, ?elem_of_nil; intros Hop;
    repeat destruct Hop as [Hop|Hop]; subst; done.
Qed.

Lemma draw_cell_some m p y x :
  (∃ op, op ∈ draw_cell m p y x) ↔
  (0 ≤ x < maze_width m ∧ 0 ≤ y < maze_height m) ∧
  (isInView p x y = true ∨ hasVisited p x y = true).
Proof.
  unfold draw_cell.
  destruct (bool_decide (x < 0) || bool_decide (x >= maze_width m) ||
            bool_decide (y < 0) || bool_decide (y >= maze_height m)) eqn:Eout.
  - rewrite !orb_true_iff, !bool_decide_eq_true in Eout. split.
    + intros [op Hop]. by apply elem_of_nil in Hop.
    + lia.
  - rewrite !orb_false_iff, !bool_decide_eq_false in Eout.
    destruct (isInView p x y || hasVisited p x y) eqn:Evis.
    + apply orb_true_iff in Evis. split; [intros _; split; [lia|done]|].
      intros _. destruct (isWall m x y); eexists; left.
    + apply orb_false_iff in Evis as [E1 E2]. rewrite E1, E2. split.
      * intros [op Hop]. by apply elem_of_nil in Hop.
      * intros [_ [|]]; done.
Qed.

(** What the drawing loops draw. *)
Lemma drawn_iff m p x y :
  drawn m p x y ↔
  (startX (window m p) ≤ x ≤ endX (window m p) ∧
   startY (window m p) ≤ y ≤ endY (window m p)) ∧
  (0 ≤ x < maze_width m ∧ 0 ≤ y < maze_height m) ∧
  (isInView p x y = true ∨ hasVisited p x y = true).
Proof.
  unfold drawn, draw_cells. split.
  - intros (op & Hop & <- & <-).
    apply list_elem_of_bind in Hop as (y' & Hop & Hy%elem_of_seqZ).
    apply list_elem_of_bind in Hop as (x' & Hop & Hx%elem_of_seqZ).
    destruct (draw_cell_at _ _ _ _ _ Hop) as [-> ->].
    split; [lia|]. apply draw_cell_some. eauto.
  - intros (Hwin & Hvis). apply draw_cell_some in Hvis as [op Hop].
    exists op. destruct (draw_cell_at _ _ _ _ _ Hop) as [? ?].
    split; [|done].
    apply list_elem_of_bind. exists y. split; [|apply elem_of_seqZ; lia].
    apply list_elem_of_bind. exists x. split; [done|apply elem_of_seqZ; lia].
Qed.

(** The same with the spotlight as a distance and the visited set as a set:
    what is drawn is settled by the loops' range, the maze's bounds, the
    spotlight and the visited set. *)
Lemma drawn_characterised (m : Maze) (p : Player) (x y : Z) :
  drawn m p x y ↔
  (startX (window m p) ≤ x ≤ endX (window m p) ∧
   startY (window m p) ≤ y ≤ endY (window m p)) ∧
  (0 ≤ x < maze_width m ∧ 0 ≤ y < maze_height m) ∧
  (Z.max (Z.abs (x - player_x p)) (Z.abs (y - player_y p)) ≤ 1 ∨
   cellKey x y ∈ visitedCells p).
Proof. rewrite drawn_iff, isInView_chebyshev, hasVisited_true. done. Qed.

(** C8. In the main view, a cell the drawing loops cover (a cell of the maze
    inside the range the loops run over) is drawn if and only if it lies in
    the 3x3 spotlight around the player (Chebyshev distance at most 1) or is
    in the player's visited set.  A cell that is neither in the spotlight nor
    visited is not drawn at all, covered or not.  Nothing else enters the
    test: for two mazes of the same size, whatever their walls, starts and
    goals, the same cells are drawn, so there is no line of sight and no
    occlusion. *)
Theorem C8_drawn_iff_spotlight_or_visited (m : Maze) (p : Player) (x y : Z) :
  (covered m p x y →
     (drawn m p x y ↔
      Z.max (Z.abs (x - player_x p)) (Z.abs (y - player_y p)) ≤ 1 ∨
      cellKey x y ∈ visitedCells p)) ∧
  (¬ Z.max (Z.abs (x - player_x p)) (Z.abs (y - player_y p)) ≤ 1 →
   cellKey x y ∉ visitedCells p →
   ¬ drawn m p x y) ∧
  (∀ m' : Maze,
     maze_width m' = maze_width m → maze_height m' = maze_height m →
     (drawn m' p x y ↔ drawn m p x y)).
Proof.
  split_and!.
  - intros [Hwin Hin]. rewrite drawn_iff, isInView_chebyshev, hasVisited_true.
    tauto.
  - intros Hspot Hvis. rewrite drawn_iff, isInView_chebyshev, hasVisited_true.
    tauto.
  - intros m' Hw Hh. rewrite !drawn_iff.
    assert (window m' p = window m p) as ->.
    { unfold window. by rewrite Hw, Hh. }
    by rewrite Hw, Hh.
Qed.

Lemma C8_drawn_iff_spotlight_or_visited_witness :
  let m := new_Maze Mazes.corridor_data in
  let p := Mazes.corridor_walker in
  (player_x p, player_y p) = (28, 0) ∧
  covered m p 10 0 ∧ drawn m p 10 0 ∧
  covered m p 29 0 ∧ drawn m p 29 0.
Proof.
  intros m p.
  assert (window m p = mkWindow 5 (-24) 29 0) as Hwin by (vm_compute; reflexivity).
  assert (covered m p 10 0) as Hc10.
  { unfold covered. rewrite Hwin. simpl. lia. }
  assert (covered m p 29 0) as Hc29.
  { unfold covered. rewrite Hwin. simpl. lia. }
  assert (cellKey 10 0 ∈ visitedCells p) as Hvisited.
  { apply (bool_decide_unpack (cellKey 10 0 ∈ visitedCells p)).
    vm_compute. exact I. }
  assert (Z.max (Z.abs (29 - player_x p)) (Z.abs (0 - player_y p)) ≤ 1) as Hspot.
  { vm_compute. congruence. }
  split_and!.
  - vm_compute. reflexivity.
  - exact Hc10.
  - apply (proj1 (C8_drawn_iff_spotlight_or_visited m p 10 0) Hc10). by right.
  - exact Hc29.
  - apply (proj1 (C8_drawn_iff_spotlight_or_visited m p 29 0) Hc29). by left.
Defined.

(** When the maze fits the view the loops run over the whole maze, and a
    cell of the maze is drawn exactly when it is in the spotlight or
    visited. *)
Lemma drawn_whole_maze m p x y :
  camera_follow m = false →
  0 ≤ x < maze_width m → 0 ≤ y < maze_height m →
  drawn m p x y ↔ isInView p x y = true ∨ hasVisited p x y = true.
Proof.
  intros Hfit Hx Hy. rewrite drawn_iff, (whole_window _ _ Hfit). simpl.
  intuition lia.
Qed.

(** The loops leave out what is off the screen. In the corridor (30 cells
    by 1) the player walks 27 steps to the right, from (1,0) to (28,0); the
    range of the loops then starts at column 5, so the visited cell (1,0),
    left of it, is not covered and gets no drawing call. *)
Example off_screen_cell_not_drawn :
  let m := new_Maze Mazes.corridor_data in
  let p := Mazes.corridor_walker in
  (player_x p, player_y p) = (28, 0) ∧
  hasVisited p 1 0 = true ∧
  window m p = mkWindow 5 (-24) 29 0 ∧
  ¬ covered m p 1 0 ∧
  ¬ drawn m p 1 0.
Proof.
  intros m p.
  assert (window m p = mkWindow 5 (-24) 29 0) as Hwin by (vm_compute; reflexivity).
  split_and!; [vm_compute; reflexivity..|done| |].
  - unfold covered. rewrite Hwin. simpl. lia.
  - rewrite drawn_iff, Hwin. simpl. lia.
Qed.

(* ===================================================================== *)
(** ** Loading a level *)
(* ===================================================================== *)

Lemma quiet_ret : quiet (mret ()).
Proof. intros g. exists g. done. Qed.

Lemma quiet_bind (c : Eff unit) (k : Eff unit) :
  quiet c → quiet k → quiet (c ;; k).
Proof.
  intros Hc Hk g. destruct (Hc g) as (g1 & Hg1 & H1).
  destruct (Hk g1) as (g2 & Hg2 & H2). exists g2.
  unfold mbind, Eff_bind. rewrite Hg1, Hg2.
  destruct H1 as (? & ? & ? & ? & ? & ? & ?), H2 as (? & ? & ? & ? & ? & ? & ?).
  split_and!; congruence.
Qed.

Lemma quiet_get (k : MazeGame → Eff unit) :
  (∀ g, quiet (k g)) → quiet (g ← get; k g).
Proof. intros Hk g. apply (Hk g g). Qed.

Lemma quiet_cache_maze level d : quiet (cache_maze level d).
Proof. intros g. eexists. split; [reflexivity|]. done. Qed.

Lemma addLevelPreview_quiet assets level : quiet (addLevelPreview assets level).
Proof.
  unfold addLevelPreview. apply quiet_get. intros g.
  repeat case_match; auto using quiet_ret, quiet_cache_maze.
Qed.

Lemma updateLevelGrid_quiet assets : quiet (updateLevelGrid assets).
Proof.
  unfold updateLevelGrid. apply quiet_get. intros g.
  induction (seqZ 1 (maxLevel (gameState g))) as [|i l IH]; simpl.
  - apply quiet_ret.
  - apply quiet_get. intros g'. apply quiet_bind; [|done].
    case_match; auto using quiet_ret, addLevelPreview_quiet.
Qed.

Ltac run_eff :=
  cbv beta iota delta
    [mbind Eff_bind mret Eff_ret get modify await try_catch
     alert showScreen set_currentLevel cache_maze].

(** [showLevelSelect] never throws and never touches the level in play;
    unless no level is known at all, the level-select screen is shown
    after it. *)
Lemma showLevelSelect_spec assets g :
  ∃ g',
    showLevelSelect assets g = (Normal (), g') ∧
    maze g' = maze g ∧ player g' = player g ∧ cellSize g' = cellSize g ∧
    mainCanvas g' = mainCanvas g ∧ localStorage g' = localStorage g ∧
    currentLevel (gameState g') = currentLevel (gameState g) ∧
    maxLevel (gameState g') = maxLevel (gameState g) ∧
    progress (gameState g') = progress (gameState g) ∧
    (alerts g' = alerts g ∨ alerts g' = (alerts g ++ [no_maps_message])%list) ∧
    (maxLevel (gameState g) ≠ 0 → currentScreen (gameState g') = "level-select").
Proof.
  unfold showLevelSelect. run_eff.
  destruct (decide (maxLevel (gameState g) = 0)) as [H0|H0].
  - eexists. split; [reflexivity|]. simpl. split_and!; auto; done.
  - match goal with |- context [updateLevelGrid assets ?g1] =>
      destruct (updateLevelGrid_quiet assets g1) as (g' & -> & Hgs & ? & ? & ? & ? & ? & ?)
    end.
    exists g'. split; [done|]. rewrite Hgs. simpl. split_and!; auto.
Qed.

(** C7. Let a level be started whose maze is not in the cache and whose
    image cannot be loaded or cannot be decoded.  Then [startLevel] ends
    normally (the error is caught inside it) and the maze and the player of
    the level played before are exactly as they were, as are the cell size,
    the canvas and the saved progress; the failure is reported by an alert,
    and for a level number from 1 on the level-select screen is shown. *)
Theorem C7_failed_load_keeps_level
    (assets : Assets) (level : Z) (g : MazeGame) (e : Error) :
  level ≤ maxLevel (gameState g) →
  parsedMazes g !! pretty level = None →
  parseMazeFromImage assets (getMazeConfig level) = Throw e →
  ∃ g',
    startLevel assets level g = (Normal (), g') ∧
    maze g' = maze g ∧ player g' = player g ∧
    cellSize g' = cellSize g ∧ mainCanvas g' = mainCanvas g ∧
    localStorage g' = localStorage g ∧
    progress (gameState g') = progress (gameState g) ∧
    load_failed_message level e ∈ alerts g' ∧
    (1 ≤ level → currentScreen (gameState g') = "level-select").
Proof.
  intros Hle Hmiss Hfail.
  unfold startLevel. run_eff.
  destruct (decide (level > maxLevel (gameState g))) as [?|_]; [lia|].
  simpl. rewrite Hmiss, Hfail.
  match goal with |- context [showLevelSelect assets ?g1] =>
    destruct (showLevelSelect_spec assets g1)
      as (g' & -> & ? & ? & ? & ? & ? & ? & Hmax & ? & Halerts & Hscreen)
  end.
  simpl in *. exists g'. split; [done|]. split_and!; try done.
  - destruct Halerts as [-> | ->]; rewrite ?elem_of_app, ?list_elem_of_singleton; auto.
  - intros Hlevel. apply Hscreen. lia.
Qed.

Lemma C7_failed_load_keeps_level_witness :
  let r := startLevel Examples.nothing 2 Games.playing in
  r.1 = Normal () ∧
  maze r.2 = maze Games.playing ∧
  player r.2 = player Games.playing ∧
  currentScreen (gameState r.2) = "level-select".
Proof.
  assert (2 ≤ maxLevel (gameState Games.playing)) as Hle by (simpl; lia).
  assert (parsedMazes Games.playing !! pretty 2 = None) as Hmiss
    by (vm_compute; reflexivity).
  assert (parseMazeFromImage Examples.nothing (getMazeConfig 2)
          = Throw (mkError (load_error_message "maps/2.png"))) as Hfail
    by (vm_compute; reflexivity).
  destruct (C7_failed_load_keeps_level Examples.nothing 2 Games.playing _
              Hle Hmiss Hfail)
    as (g' & Hrun & Hmaze & Hplayer & _ & _ & _ & _ & _ & Hscreen).
  intros r. subst r. rewrite Hrun. simpl.
  split_and!; [reflexivity|exact Hmaze|exact Hplayer|apply Hscreen; lia].
Defined.

(** The same when the image loads but holds no start pixel. *)
Example startLevel_undecodable :
  let r := startLevel (Examples.only Examples.no_start) 2 Games.playing in
  r.1 = Normal () ∧
  maze r.2 = maze Games.playing ∧
  player r.2 = player Games.playing ∧
  currentLevel (gameState r.2) = 2 ∧
  currentScreen (gameState r.2) = "level-select" ∧
  alerts r.2
    = [load_failed_message 2 (mkError (missing_landmark_message "maps/2.png"))].
Proof. vm_compute. repeat split; reflexivity. Qed.

(** A level that decodes replaces the maze and the player and shows the
    game screen. *)
Example startLevel_corridor :
  let r := startLevel (Examples.only Examples.corridor) 2 Games.playing in
  r.1 = Normal () ∧
  maze r.2 = Some (new_Maze Mazes.corridor_data) ∧
  player r.2 = Some (new_Player 1 0) ∧
  parsedMazes r.2 !! "2" = Some Mazes.corridor_data ∧
  currentScreen (gameState r.2) = "game".
Proof. vm_compute. repeat split; reflexivity. Qed.

(** Completing the level in play stores the player's visited set, and the
    stored path reads back as that set. *)
Lemma game_completeLevel_path g p :
  player g = Some p → StrSet.wf (visitedCells p) →
  ∃ g',
    game_completeLevel g = (Normal (), g') ∧
    getCompletedPath (currentLevel (gameState g)) (gameState g') = visitedCells p ∧
    getCompletedPath (currentLevel (gameState g)) (new_GameState (localStorage g'))
      = visitedCells p.
Proof.
  intros Hp Hwf. unfold game_completeLevel. run_eff. rewrite Hp. simpl.
  eexists. split; [reflexivity|]. simpl.
  unfold getCompletedPath, new_GameState. simpl. rewrite lookup_insert_eq.
  by rewrite StrSet_of_to_array.
Qed.

(** Level 2, the corridor, played to its end: 28 steps to the right reach
    the goal, the clear screen is shown, and the path saved for level 2 reads
    back as the 29 cells walked over. *)
Example play_corridor :
  let r1 := startLevel (Examples.only Examples.corridor) 2 Games.playing in
  let r2 := Games.play (replicate 28 (1, 0)) r1.2 in
  r2.1 = Normal () ∧
  currentScreen (gameState r2.2) = "clear" ∧
  isLevelCompleted 2 (gameState r2.2) = true ∧
  (visitedCells <$> player r2.2)
    = Some (getCompletedPath 2 (new_GameState (localStorage r2.2))) ∧
  StrSet.size (getCompletedPath 2 (new_GameState (localStorage r2.2))) = 29%nat.
Proof. vm_compute. repeat split; reflexivity. Qed.

(* ===================================================================== *)
(** ** Further properties: the player's trail *)
(* ===================================================================== *)

Lemma move_visited_extends dx dy m p :
  ∃ l, visitedCells (move dx dy m p).1 = (visitedCells p ++ l)%list ∧
       (length l ≤ 1)%nat.
Proof.
  unfold move. destruct (negb _); simpl.
  - unfold StrSet.add. destruct (StrSet.has _ _).
    + exists []. rewrite app_nil_r. simpl. split; [done|lia].
    + eexists [_]. simpl. split; [done|lia].
  - exists []. rewrite app_nil_r. simpl. split; [done|lia].
Qed.

Lemma moves_visited_extends m p steps :
  ∃ l, visitedCells (moves m p steps) = (visitedCells p ++ l)%list ∧
       (length l ≤ length steps)%nat.
Proof.
  induction steps as [|d steps IH] using rev_ind.
  - exists []. rewrite app_nil_r. simpl. split; [done|lia].
  - destruct IH as (l & Hl & Hlen). rewrite moves_snoc.
    destruct (move_visited_extends d.1 d.2 m (moves m p steps)) as (l' & -> & Hlen').
    exists (l ++ l')%list. rewrite Hl, <-app_assoc, !length_app. split; [done|].
    simpl. lia.
Qed.

(** X1. The visited set only grows. Whatever moves are made, the set after
    them starts with the set before them, in the same order; every cell
    visited before is visited after; and the size grows by at most one per
    call of [move]. *)
Theorem X1_visited_only_grows (m : Maze) (p : Player) (steps : list (Z * Z)) :
  let q := moves m p steps in
  visitedCells p `prefix_of` visitedCells q ∧
  (∀ x y, hasVisited p x y = true → hasVisited q x y = true) ∧
  (StrSet.size (visitedCells p) ≤ StrSet.size (visitedCells q)
     ≤ StrSet.size (visitedCells p) + length steps)%nat.
Proof.
  intros q. destruct (moves_visited_extends m p steps) as (l & Hl & Hlen).
  fold q in Hl. split_and!.
  - by exists l.
  - intros x y. rewrite !hasVisited_true, Hl, elem_of_app. auto.
  - unfold StrSet.size. rewrite Hl, length_app. lia.
  - unfold StrSet.size. rewrite Hl, length_app. lia.
Qed.

Lemma markVisited_position p :
  hasVisited (markVisited p) (player_x p) (player_y p) = true.
Proof. apply hasVisited_true. simpl. apply StrSet_elem_of_add. by left. Qed.

Lemma moves_position_visited m p steps :
  hasVisited p (player_x p) (player_y p) = true →
  hasVisited (moves m p steps) (player_x (moves m p steps))
             (player_y (moves m p steps)) = true.
Proof.
  intros Hp. induction steps as [|d steps IH] using rev_ind; [done|].
  rewrite moves_snoc. unfold move. destruct (negb _); simpl; [|done].
  apply (markVisited_position (mkPlayer _ _ _)).
Qed.

(** X2. The player's own cell is always in its visited set, from the
    constructor on and after any moves; and the first key of the set is
    always the cell the player was made at. *)
Theorem X2_position_is_visited (m : Maze) (startX startY : Z) (steps : list (Z * Z)) :
  let p := moves m (new_Player startX startY) steps in
  hasVisited p (player_x p) (player_y p) = true ∧
  visitedCells p !! 0%nat = Some (cellKey startX startY).
Proof.
  intros p. split.
  - apply moves_position_visited.
    apply (markVisited_position (mkPlayer startX startY StrSet.empty)).
  - destruct (moves_visited_extends m (new_Player startX startY) steps)
      as (l & Hl & _).
    fold p in Hl. rewrite Hl. reflexivity.
Qed.

Lemma moves_trail_free m p steps :
  isWall m (player_x p) (player_y p) = false →
  (∀ k, k ∈ visitedCells p → k ∉ maze_walls m) →
  ∀ k, k ∈ visitedCells (moves m p steps) → k ∉ maze_walls m.
Proof.
  intros Hp Hfree. induction steps as [|d steps IH] using rev_ind; [done|].
  rewrite moves_snoc. intros k. unfold move.
  destruct (isWall m (player_x (moves m p steps) + d.1)
                   (player_y (moves m p steps) + d.2)) eqn:Hw;
    simpl; [by apply IH|].
  intros [->|Hk]%StrSet_elem_of_add; [by apply isWall_false|by apply IH].
Qed.

(** X3. In a decoded maze, with the player made at the start, no cell the
    player has visited is a wall: the visited set and the wall set never
    share a key. *)
Theorem X3_trail_never_crosses_walls
    (assets : Assets) (imageUrl : string) (d : MazeData) (steps : list (Z * Z)) :
  parseMazeFromImage assets imageUrl = Normal d →
  let m := new_Maze d in
  let p := moves m (new_Player (cell_x (maze_start m)) (cell_y (maze_start m))) steps in
  ∀ x y, hasVisited p x y = true →
         isWall m x y = false ∧ (mkCell x y ∉ data_walls d).
Proof.
  intros Hparse m p x y Hv%hasVisited_true.
  assert (isWall m (cell_x (maze_start m)) (cell_y (maze_start m)) = false) as H0.
  { apply not_true_is_false. intros Hw%isWall_new_Maze. simpl in Hw.
    apply (decoded_start_not_wall _ _ _ Hparse). by destruct (data_start d). }
  assert (cellKey x y ∉ maze_walls m) as Hfree.
  { revert Hv. apply moves_trail_free; [done|].
    intros k [->|Hk]%StrSet_elem_of_add; [by apply isWall_false|].
    by apply elem_of_nil in Hk. }
  split; [by apply isWall_false|].
  intros Hin%maze_walls_cells. done.
Qed.

Lemma X3_trail_never_crosses_walls_witness :
  let m := new_Maze Examples.room_data in
  let p := moves m (new_Player 1 1) [(1, 0); (0, 1); (1, 1); (0, 1)] in
  hasVisited p 3 3 = true ∧ isWall m 3 3 = false.
Proof.
  intros m p.
  assert (parseMazeFromImage (Examples.only Examples.room) "maps/1.png"
          = Normal Examples.room_data) as H by (vm_compute; reflexivity).
  assert (hasVisited p 3 3 = true) as Hv by (vm_compute; reflexivity).
  split; [exact Hv|].
  exact (proj1 (X3_trail_never_crosses_walls _ _ _
                  [(1, 0); (0, 1); (1, 1); (0, 1)] H 3 3 Hv)).
Defined.

Lemma elem_of_border_cells m x y :
  (x, y) ∈ border_cells m ↔
  (0 ≤ x < maze_width m ∧ 0 ≤ y < maze_height m) ∧
  (x = 0 ∨ x = maze_width m - 1 ∨ y = 0 ∨ y = maze_height m - 1).
Proof.
  unfold border_cells. rewrite list_elem_of_bind. split.
  - intros (y' & (x' & Hc & Hx%elem_of_seqZ)%list_elem_of_bind & Hy%elem_of_seqZ).
    destruct (_ || _) eqn:E in Hc; [|by apply elem_of_nil in Hc].
    apply list_elem_of_singleton in Hc as [= -> ->].
    rewrite !orb_true_iff, !bool_decide_eq_true in E. lia.
  - intros [[Hx Hy] Hb]. exists y. split; [|apply elem_of_seqZ; lia].
    apply list_elem_of_bind. exists x. split; [|apply elem_of_seqZ; lia].
    destruct (_ || _) eqn:E; [by apply list_elem_of_singleton|].
    rewrite !orb_false_iff, !bool_decide_eq_false in E. lia.
Qed.

Lemma border_walled_spec m x y :
  border_walled m = true →
  0 ≤ x < maze_width m → 0 ≤ y < maze_height m →
  x = 0 ∨ x = maze_width m - 1 ∨ y = 0 ∨ y = maze_height m - 1 →
  isWall m x y = true.
Proof.
  unfold border_walled. rewrite forallb_forall. intros Hall Hx Hy Hb.
  apply (Hall (x, y)). apply list_elem_of_In, elem_of_border_cells. done.
Qed.

Lemma free_cell_inside m x y :
  border_walled m = true →
  0 ≤ x < maze_width m → 0 ≤ y < maze_height m →
  isWall m x y = false →
  0 < x < maze_width m - 1 ∧ 0 < y < maze_height m - 1.
Proof.
  intros Hrim Hx Hy Hfree.
  destruct (decide (x = 0 ∨ x = maze_width m - 1 ∨
                    y = 0 ∨ y = maze_height m - 1)) as [Hb|Hb]; [|lia].
  rewrite (border_walled_spec m x y Hrim Hx Hy Hb) in Hfree. done.
Qed.

(** X4. The input contract that [move] relies on. In a maze whose rim is
    all wall, a player that stands on a cell of the grid that is no wall
    stays strictly inside the grid under any run of steps of at most one
    cell along one axis: the missing bounds check in [move] is never
    missed. *)
Theorem X4_walled_rim_keeps_player_inside
    (m : Maze) (p : Player) (steps : list (Z * Z)) :
  border_walled m = true →
  forallb unit_step steps = true →
  0 ≤ player_x p < maze_width m → 0 ≤ player_y p < maze_height m →
  isWall m (player_x p) (player_y p) = false →
  let q := moves m p steps in
  0 < player_x q < maze_width m - 1 ∧ 0 < player_y q < maze_height m - 1 ∧
  isValidMove m (player_x q) (player_y q) = true.
Proof.
  intros Hrim Hsteps Hx Hy Hfree q.
  assert ((0 ≤ player_x q < maze_width m ∧ 0 ≤ player_y q < maze_height m) ∧
          isWall m (player_x q) (player_y q) = false) as [[Hqx Hqy] Hq].
  { subst q. induction steps as [|d steps IH] using rev_ind; [done|].
    rewrite forallb_app in Hsteps. apply andb_true_iff in Hsteps as [Hs Hd].
    simpl in Hd. rewrite andb_true_r in Hd. apply bool_decide_eq_true in Hd.
    destruct (IH Hs) as [[IHx IHy] IHw]. rewrite moves_snoc. unfold move.
    set (r := moves m p steps) in *.
    destruct (free_cell_inside m _ _ Hrim IHx IHy IHw) as [Hix Hiy].
    destruct (isWall m (player_x r + d.1) (player_y r + d.2)) eqn:Hw; simpl;
      [done|].
    split; [lia|done]. }
  destruct (free_cell_inside m _ _ Hrim Hqx Hqy Hq) as [Hix Hiy].
  split; [done|]. split; [done|].
  unfold isValidMove. rewrite Hq. simpl.
  rewrite !andb_true_iff, !bool_decide_eq_true. lia.
Qed.

Lemma X4_walled_rim_keeps_player_inside_witness :
  let m := new_Maze Examples.room_data in
  let q := moves m (new_Player 1 1) [(-1, 0); (0, -1); (1, 0); (1, 0); (1, 0); (0, 1)] in
  (player_x q, player_y q) = (3, 2) ∧
  0 < player_x q < maze_width m - 1 ∧ 0 < player_y q < maze_height m - 1.
Proof.
  intros m q. split; [vm_compute; reflexivity|].
  assert (border_walled m = true) as Hrim by (vm_compute; reflexivity).
  assert (forallb unit_step [(-1, 0); (0, -1); (1, 0); (1, 0); (1, 0); (0, 1)] = true)
    as Hsteps by (vm_compute; reflexivity).
  assert (0 ≤ player_x (new_Player 1 1) < maze_width m) as Hx by (simpl; lia).
  assert (0 ≤ player_y (new_Player 1 1) < maze_height m) as Hy by (simpl; lia).
  assert (isWall m (player_x (new_Player 1 1)) (player_y (new_Player 1 1)) = false)
    as Hfree by (vm_compute; reflexivity).
  destruct (X4_walled_rim_keeps_player_inside m (new_Player 1 1) _
              Hrim Hsteps Hx Hy Hfree) as (H1 & H2 & _).
  exact (conj H1 H2).
Defined.

(* ===================================================================== *)
(** ** Further properties: the decoder and the maze it gives *)
(* ===================================================================== *)

Lemma scan_order_NoDup img : NoDup (Spec.scan_order img).
Proof.
  unfold Spec.scan_order. apply NoDup_bind; [| |apply NoDup_seqZ].
  - intros y1 y2 c _ _ (x1 & Hc1 & _)%list_elem_of_bind (x2 & Hc2 & _)%list_elem_of_bind.
    apply list_elem_of_singleton in Hc1, Hc2. congruence.
  - intros y _. apply NoDup_bind; [| |apply NoDup_seqZ].
    + intros x1 x2 c _ _ Hc1%list_elem_of_singleton Hc2%list_elem_of_singleton.
      congruence.
    + intros x _. apply list.NoDup_singleton.
Qed.

Lemma matching_NoDup img col : NoDup (Spec.matching img col).
Proof. apply list.NoDup_filter, scan_order_NoDup. Qed.

(** X5. A decoded descriptor is well formed: its size is the image's and is
    at least 1x1, the start, the goal and every wall lie inside the grid,
    and no cell is listed as a wall twice. *)
Theorem X5_decoded_descriptor_well_formed
    (assets : Assets) (imageUrl : string) (d : MazeData) :
  parseMazeFromImage assets imageUrl = Normal d →
  (∃ img, assets imageUrl = Some img ∧
          data_width d = img_width img ∧ data_height d = img_height img) ∧
  (0 < data_width d ∧ 0 < data_height d) ∧
  in_grid (data_width d) (data_height d) (data_start d) ∧
  in_grid (data_width d) (data_height d) (data_goal d) ∧
  Forall (in_grid (data_width d) (data_height d)) (data_walls d) ∧
  NoDup (data_walls d).
Proof.
  intros (img & Himg & Hd)%parseMazeFromImage_Normal.
  apply parse_loaded_Normal in Hd as (Hw & Hh & Hwalls & Hs & Hg).
  apply last_Some_elem_of, elem_of_matching in Hs as [_ Hs%elem_of_scan_order].
  apply last_Some_elem_of, elem_of_matching in Hg as [_ Hg%elem_of_scan_order].
  rewrite Hw, Hh, Hwalls. unfold in_grid. split_and!; try lia.
  - by exists img.
  - apply list.Forall_forall.
    intros c [_ Hc%elem_of_scan_order]%elem_of_matching. done.
  - apply matching_NoDup.
Qed.

Lemma X5_decoded_descriptor_well_formed_witness :
  in_grid 5 5 (data_start Examples.room_data) ∧
  NoDup (data_walls Examples.room_data).
Proof.
  assert (parseMazeFromImage (Examples.only Examples.room) "maps/1.png"
          = Normal Examples.room_data) as H by (vm_compute; reflexivity).
  destruct (X5_decoded_descriptor_well_formed _ _ _ H)
    as (_ & _ & Hs & _ & _ & Hnd).
  exact (conj Hs Hnd).
Defined.

(** X6. The wall query reads the image. For a maze made from a decoded
    image, [isWall(x, y)] is true exactly when (x, y) is a pixel of the image
    and that pixel is black, and [isValidMove(x, y)] is true exactly when
    (x, y) is a pixel of the image that is not black. *)
Theorem X6_wall_query_reads_image
    (assets : Assets) (imageUrl : string) (img : ImageData) (d : MazeData)
    (x y : Z) :
  assets imageUrl = Some img →
  parseMazeFromImage assets imageUrl = Normal d →
  (isWall (new_Maze d) x y = true ↔
     (0 ≤ x < img_width img ∧ 0 ≤ y < img_height img) ∧
     Spec.pixel img (mkCell x y) = Some Spec.wall_color) ∧
  (isValidMove (new_Maze d) x y = true ↔
     (0 ≤ x < img_width img ∧ 0 ≤ y < img_height img) ∧
     Spec.pixel img (mkCell x y) ≠ Some Spec.wall_color).
Proof.
  intros Himg Hparse.
  assert (parse_loaded imageUrl img = Normal d) as Hd.
  { revert Hparse. unfold parseMazeFromImage. by rewrite Himg. }
  apply parse_loaded_Normal in Hd as (Hw & Hh & Hwalls & _).
  assert (isWall (new_Maze d) x y = true ↔
          (0 ≤ x < img_width img ∧ 0 ≤ y < img_height img) ∧
          Spec.pixel img (mkCell x y) = Some Spec.wall_color) as Hwall.
  { rewrite isWall_new_Maze, Hwalls, elem_of_matching, elem_of_scan_order.
    simpl. tauto. }
  split; [done|].
  unfold isValidMove. rewrite !andb_true_iff, !bool_decide_eq_true, negb_true_iff.
  simpl. rewrite Hw, Hh.
  destruct (isWall (new_Maze d) x y) eqn:E.
  - destruct (proj1 Hwall eq_refl) as [Hin Hpix].
    split; [intros [_ [=]]|intros [_ Hne]; done].
  - split.
    + intros [Hin _]. split; [lia|]. intros Hpix.
      assert (false = true) as Habs by (apply Hwall; split; [lia|done]).
      done.
    + intros [Hin _]. split; [lia|done].
Qed.

Lemma X6_wall_query_reads_image_witness :
  isWall (new_Maze Examples.room_data) 4 2 = true ∧
  isValidMove (new_Maze Examples.room_data) 2 2 = true.
Proof.
  assert (parseMazeFromImage (Examples.only Examples.room) "maps/1.png"
          = Normal Examples.room_data) as H by (vm_compute; reflexivity).
  split.
  - apply (X6_wall_query_reads_image _ _ Examples.room _ 4 2 eq_refl H).
    vm_compute. repeat split; congruence.
  - apply (X6_wall_query_reads_image _ _ Examples.room _ 2 2 eq_refl H).
    vm_compute. repeat split; congruence.
Defined.

Lemma filter_ext_in {A} (P Q : A → Prop)
    `{∀ x, Decision (P x)} `{∀ x, Decision (Q x)} (l : list A) :
  (∀ x, x ∈ l → P x ↔ Q x) → filter P l = filter Q l.
Proof.
  induction l as [|a l IH]; intros Hext; [done|].
  rewrite !filter_cons.
  assert (P a ↔ Q a) as Ha by (apply Hext; left).
  rewrite IH by (intros x Hx; apply Hext; by right).
  repeat case_decide; tauto.
Qed.

Lemma mark_of_color img c :
  (Spec.pixel img c = Some Spec.wall_color ↔ mark_of img c = MarkWall) ∧
  (Spec.pixel img c = Some Spec.start_color ↔ mark_of img c = MarkStart) ∧
  (Spec.pixel img c = Some Spec.goal_color ↔ mark_of img c = MarkGoal).
Proof.
  unfold mark_of. destruct (pixel_colors_apart img c) as (? & ? & ?).
  repeat case_decide; split_and!; split; intros; try done; tauto.
Qed.

Lemma same_marks_matching img img' col :
  same_marks img img' = true →
  col = Spec.wall_color ∨ col = Spec.start_color ∨ col = Spec.goal_color →
  Spec.matching img col = Spec.matching img' col.
Proof.
  unfold same_marks. rewrite !andb_true_iff, !bool_decide_eq_true, forallb_forall.
  intros [[Hw Hh] Hmarks] Hcol. unfold Spec.matching.
  assert (Spec.scan_order img' = Spec.scan_order img) as ->.
  { unfold Spec.scan_order. by rewrite Hw, Hh. }
  apply filter_ext_in. intros c Hc%list_elem_of_In.
  apply Hmarks, bool_decide_eq_true in Hc.
  destruct (mark_of_color img c) as (H1 & H2 & H3).
  destruct (mark_of_color img' c) as (H1' & H2' & H3').
  destruct Hcol as [-> | [-> | ->]];
    rewrite ?H1, ?H2, ?H3, ?H1', ?H2', ?H3', Hc; done.
Qed.

(** X7. Only the marks count. Two images of the same size in which every
    pixel is marked alike (wall, start, goal, or none of these) decode to the
    same result, descriptor or error: the alpha samples are never read, and
    a colour that is none of the three reserved ones may be any other such
    colour. *)
Theorem X7_decode_reads_marks_only (imageUrl : string) (img img' : ImageData) :
  same_marks img img' = true →
  parse_loaded imageUrl img = parse_loaded imageUrl img'.
Proof.
  intros Hsame. rewrite !parse_loaded_decode. unfold Spec.decode.
  rewrite (same_marks_matching _ _ Spec.start_color Hsame) by auto.
  rewrite (same_marks_matching _ _ Spec.goal_color Hsame) by auto.
  rewrite (same_marks_matching _ _ Spec.wall_color Hsame) by auto.
  unfold same_marks in Hsame.
  rewrite !andb_true_iff, !bool_decide_eq_true in Hsame.
  destruct Hsame as [[Hw Hh] _]. by rewrite Hw, Hh.
Qed.

Lemma X7_decode_reads_marks_only_witness :
  parse_loaded "maps/1.png" MoreExamples.room_faded = Normal Examples.room_data.
Proof.
  assert (same_marks Examples.room MoreExamples.room_faded = true) as Hsame
    by (vm_compute; reflexivity).
  rewrite <-(X7_decode_reads_marks_only "maps/1.png" _ _ Hsame).
  vm_compute. reflexivity.
Defined.

(** X8. The constructor of [Maze] turns a decoded wall list into a set
    without loss: the set holds the keys of the wall cells in scan order,
    one key per wall pixel. *)
Theorem X8_wall_set_of_decoded_maze
    (assets : Assets) (imageUrl : string) (d : MazeData) :
  parseMazeFromImage assets imageUrl = Normal d →
  maze_walls (new_Maze d)
    = (λ wall, cellKey (cell_x wall) (cell_y wall)) <$> data_walls d ∧
  StrSet.size (maze_walls (new_Maze d)) = length (data_walls d) ∧
  StrSet.wf (maze_walls (new_Maze d)).
Proof.
  intros (img & _ & Hd)%parseMazeFromImage_Normal.
  apply parse_loaded_Normal in Hd as (_ & _ & Hwalls & _).
  assert (NoDup ((λ wall, cellKey (cell_x wall) (cell_y wall)) <$> data_walls d))
    as Hnd.
  { apply NoDup_fmap_2_strong; [|rewrite Hwalls; apply matching_NoDup].
    intros [x1 y1] [x2 y2] _ _ Hkey. simpl in Hkey.
    apply cellKey_inj in Hkey as [-> ->]. done. }
  assert (maze_walls (new_Maze d)
          = (λ wall, cellKey (cell_x wall) (cell_y wall)) <$> data_walls d) as Heq.
  { unfold new_Maze. simpl. rewrite <-(foldl_fmap (λ s k, StrSet.add k s)).
    by rewrite StrSet_fold_add_fresh. }
  rewrite Heq. split_and!; [done| |done].
  unfold StrSet.size. by rewrite length_fmap.
Qed.

Lemma X8_wall_set_of_decoded_maze_witness :
  StrSet.size (maze_walls (new_Maze Examples.room_data)) = 16%nat.
Proof.
  assert (parseMazeFromImage (Examples.only Examples.room) "maps/1.png"
          = Normal Examples.room_data) as H by (vm_compute; reflexivity).
  exact (proj1 (proj2 (X8_wall_set_of_decoded_maze _ _ _ H))).
Defined.

(* ===================================================================== *)
(** ** Further properties: the progress store *)
(* ===================================================================== *)

Lemma isLevelCompleted_completeLevel level visited gs l :
  isLevelCompleted l (completeLevel level visited gs).1
  = if decide (l = level) then true else isLevelCompleted l gs.
Proof.
  unfold isLevelCompleted, completeLevel. simpl.
  destruct (decide (l = level)) as [->|Hne].
  - by rewrite lookup_insert_eq.
  - rewrite lookup_insert_ne; [done|].
    intros Heq. by apply (inj pretty) in Heq.
Qed.

Lemma getCompletedPath_other level visited gs l :
  l ≠ level →
  getCompletedPath l (completeLevel level visited gs).1 = getCompletedPath l gs.
Proof.
  intros Hne. unfold getCompletedPath, completeLevel. simpl.
  rewrite lookup_insert_ne; [done|].
  intros Heq. by apply (inj pretty) in Heq.
Qed.

(** X9. Completing a level marks that level completed and unlocks the next
    one; the completion and the stored path of every other level are left
    as they were, no level loses its completion, and what goes to the store
    is the whole progress, so that a game started from the store answers
    the same. *)
Theorem X9_completing_a_level (level : Z) (visited : StrSet.t) (gs : GameState) :
  let r := completeLevel level visited gs in
  isLevelCompleted level r.1 = true ∧
  isLevelUnlocked (level + 1) r.1 = true ∧
  (∀ l, l ≠ level →
        isLevelCompleted l r.1 = isLevelCompleted l gs ∧
        getCompletedPath l r.1 = getCompletedPath l gs) ∧
  (∀ l, isLevelCompleted l gs = true → isLevelCompleted l r.1 = true) ∧
  (∀ l, isLevelCompleted l (new_GameState r.2) = isLevelCompleted l r.1 ∧
        isLevelUnlocked l (new_GameState r.2) = isLevelUnlocked l r.1 ∧
        getCompletedPath l (new_GameState r.2) = getCompletedPath l r.1).
Proof.
  intros r. subst r. split_and!.
  - rewrite isLevelCompleted_completeLevel. by case_decide.
  - unfold isLevelUnlocked. rewrite isLevelCompleted_completeLevel.
    replace (level + 1 - 1) with level by lia.
    case_decide; [|done]. apply orb_true_r.
  - intros l Hne. split; [|by apply getCompletedPath_other].
    rewrite isLevelCompleted_completeLevel. by case_decide.
  - intros l Hl. rewrite isLevelCompleted_completeLevel. by case_decide.
  - intros l. done.
Qed.

Lemma completeLevel_closed level visited gs :
  progress_closed gs →
  isLevelUnlocked level gs = true →
  progress_closed (completeLevel level visited gs).1.
Proof.
  intros Hclosed Hunlocked i. rewrite isLevelCompleted_completeLevel.
  assert (isLevelUnlocked i gs = true →
          isLevelUnlocked i (completeLevel level visited gs).1 = true) as Hmono.
  { unfold isLevelUnlocked. rewrite !orb_true_iff, isLevelCompleted_completeLevel.
    intros [?|?]; [by left|right]. by case_decide. }
  case_decide as Hi; [subst i; auto|auto].
Qed.

(** X10. As long as only unlocked levels are played, every completed level
    stays unlocked: starting from a store with that property (the empty
    store has it), completing an unlocked level keeps it, so in the level
    grid a button of class "completed" always has its click listener and a
    button of class "locked" never has one. *)
Theorem X10_completed_levels_stay_unlocked
    (level : Z) (visited : StrSet.t) (gs : GameState) :
  progress_closed gs →
  isLevelUnlocked level gs = true →
  let gs' := (completeLevel level visited gs).1 in
  progress_closed gs' ∧
  ∀ i, (level_button_class i gs' = "completed" → level_button_clickable i gs' = true) ∧
       (level_button_class i gs' = "locked" → level_button_clickable i gs' = false).
Proof.
  intros Hclosed Hunlocked gs'.
  assert (progress_closed gs') as Hclosed' by by apply completeLevel_closed.
  split; [done|]. intros i. unfold level_button_class, level_button_clickable.
  destruct (isLevelCompleted i gs') eqn:Ec.
  - split; [intros _; by apply Hclosed'|done].
  - destruct (isLevelUnlocked i gs'); done.
Qed.

Lemma X10_completed_levels_stay_unlocked_witness :
  let gs' := (completeLevel 1 ["1,1"; "2,1"] (new_GameState None)).1 in
  level_button_class 1 gs' = "completed" ∧
  level_button_clickable 1 gs' = true ∧
  level_button_class 2 gs' = "available" ∧
  level_button_class 3 gs' = "locked".
Proof.
  intros gs'.
  assert (progress_closed (new_GameState None)) as Hclosed.
  { intros i. unfold isLevelCompleted, new_GameState. simpl.
    rewrite lookup_empty. discriminate. }
  assert (isLevelUnlocked 1 (new_GameState None) = true) as Hunlocked
    by (vm_compute; reflexivity).
  destruct (X10_completed_levels_stay_unlocked 1 ["1,1"; "2,1"] _ Hclosed Hunlocked)
    as [_ Hbuttons].
  assert (level_button_class 1 gs' = "completed") as H1 by (vm_compute; reflexivity).
  split_and!; [exact H1|exact (proj1 (Hbuttons 1) H1)|vm_compute; reflexivity..].
Defined.

(** X11. With nothing in the store no level is completed, level 1 is the
    only unlocked level, no path is known for any level, and the grid shows
    level 1 as "available" and every other level as "locked". *)
Theorem X11_empty_store (level : Z) :
  let gs := new_GameState None in
  isLevelCompleted level gs = false ∧
  (isLevelUnlocked level gs = true ↔ level = 1) ∧
  getCompletedPath level gs = StrSet.empty ∧
  level_button_class level gs = (if decide (level = 1) then "available" else "locked") ∧
  progress_closed gs.
Proof.
  intros gs.
  assert (∀ l, isLevelCompleted l gs = false) as Hnone.
  { intros l. unfold isLevelCompleted, gs, new_GameState. simpl.
    by rewrite lookup_empty. }
  assert (isLevelUnlocked level gs = true ↔ level = 1) as Hunlocked.
  { unfold isLevelUnlocked. rewrite Hnone, orb_false_r. apply bool_decide_eq_true. }
  split_and!; [done|done| | |].
  - unfold getCompletedPath, gs, new_GameState. simpl. by rewrite lookup_empty.
  - unfold level_button_class. rewrite Hnone.
    case_decide as Hl.
    + by rewrite (proj2 Hunlocked Hl).
    + destruct (isLevelUnlocked level gs); [|done].
      by destruct Hl; apply Hunlocked.
  - intros i. by rewrite Hnone.
Qed.

(** X12. Whatever the store holds, the path read for a level is a proper
    set with exactly the entries of the stored array: entries stored twice
    are read once, and a level that is missing or has no path reads as the
    empty set. *)
Theorem X12_stored_path_read_as_set (level : Z) (gs : GameState) :
  StrSet.wf (getCompletedPath level gs) ∧
  (∀ k, k ∈ getCompletedPath level gs ↔
        ∃ lp p, progress gs !! pretty level = Some lp ∧ path lp = Some p ∧ k ∈ p) ∧
  (progress gs !! pretty level = None → getCompletedPath level gs = StrSet.empty).
Proof.
  unfold getCompletedPath.
  destruct (progress gs !! pretty level) as [[c [p|]]|] eqn:E.
  - split_and!; [apply StrSet_of_array_wf| |done].
    intros k. unfold StrSet.of_array.
    rewrite (StrSet_elem_of_fold_add id). split.
    + intros [Hk|(a & Ha & <-)]; [by apply elem_of_nil in Hk|].
      eexists _, _. split_and!; done.
    + intros (lp & p' & [= <-] & [= <-] & Hk). right. by exists k.
  - split_and!; [apply NoDup_nil_2| |done].
    intros k. split; [intros Hk; by apply elem_of_nil in Hk|].
    intros (lp & p' & [= <-] & [=] & _).
  - split_and!; [apply NoDup_nil_2| |done].
    intros k. split; [intros Hk; by apply elem_of_nil in Hk|].
    intros (lp & p' & [=] & _).
Qed.

(* ===================================================================== *)
(** ** Further properties: finding and starting levels *)
(* ===================================================================== *)

Lemma probe_levels_seqZ assets (len : nat) (a m0 : Z) (g : MazeGame) :
  ∃ (k : nat) (g' : MazeGame),
    (k ≤ len)%nat ∧
    probe_levels assets (seqZ a (Z.of_nat len)) m0 g
      = (Normal (if decide (k = 0%nat) then m0 else a + Z.of_nat k - 1), g') ∧
    (∀ i, a ≤ i < a + Z.of_nat k →
          ∃ d, parseMazeFromImage assets (getMazeConfig i) = Normal d ∧
               parsedMazes g' !! pretty i = Some d) ∧
    ((k < len)%nat →
       ∃ e, parseMazeFromImage assets (getMazeConfig (a + Z.of_nat k)) = Throw e) ∧
    (∀ key : string, (∀ i, a ≤ i < a + Z.of_nat k → key ≠ pretty i) →
          parsedMazes g' !! key = parsedMazes g !! key) ∧
    same_but_cache g g'.
Proof.
  revert a m0 g. induction len as [|len IH]; intros a m0 g.
  - exists 0%nat, g. simpl. unfold same_but_cache.
    split_and!; try done; try lia.
  - rewrite seqZ_cons by lia.
    replace (Z.pred (Z.of_nat (S len))) with (Z.of_nat len) by lia. simpl.
    destruct (parseMazeFromImage assets (getMazeConfig a)) as [d|e] eqn:Hparse.
    + run_eff.
      set (g1 := set_parsedMazes (<[pretty a:=d]> (parsedMazes g)) g).
      destruct (IH (Z.succ a) a g1)
        as (k & g' & Hk & Hrun & Hall & Hnext & Hkeep & Hsame).
      exists (S k), g'. split_and!.
      * lia.
      * rewrite Hrun. f_equal. f_equal. repeat case_decide; lia.
      * intros i Hi. destruct (decide (i = a)) as [->|Hne].
        -- exists d. split; [done|]. rewrite Hkeep.
           ++ subst g1. simpl. by rewrite lookup_insert_eq.
           ++ intros j Hj Heq. apply (inj pretty) in Heq. lia.
        -- apply Hall. lia.
      * intros Hlt. replace (a + Z.of_nat (S k)) with (Z.succ a + Z.of_nat k) by lia.
        apply Hnext. lia.
      * intros key Hkey. rewrite Hkeep.
        -- subst g1. simpl. rewrite lookup_insert_ne; [done|].
           intros Heq. apply (Hkey a); [lia|done].
        -- intros j Hj. apply Hkey. lia.
      * destruct Hsame as (? & ? & ? & ? & ? & ? & ?). subst g1. simpl in *.
        unfold same_but_cache. split_and!; done.
    + exists 0%nat, g. unfold same_but_cache. split_and!; try done; try lia.
      intros _. exists e. by rewrite Z.add_0_r.
Qed.

Lemma determineMaxLevel_spec assets g :
  ∃ (n : Z) (g' : MazeGame),
    determineMaxLevel assets g = (Normal (), g') ∧
    0 ≤ n ≤ MAX_CHECK_LIMIT ∧
    maxLevel (gameState g') = n ∧
    (∀ i, 1 ≤ i ≤ n →
          ∃ d, parseMazeFromImage assets (getMazeConfig i) = Normal d ∧
               parsedMazes g' !! pretty i = Some d) ∧
    (n < MAX_CHECK_LIMIT →
       ∃ e, parseMazeFromImage assets (getMazeConfig (n + 1)) = Throw e) ∧
    (∀ key : string, (∀ i, 1 ≤ i ≤ n → key ≠ pretty i) →
          parsedMazes g' !! key = parsedMazes g !! key) ∧
    maze g' = maze g ∧ player g' = player g ∧
    currentLevel (gameState g') = currentLevel (gameState g) ∧
    progress (gameState g') = progress (gameState g) ∧
    currentScreen (gameState g') = currentScreen (gameState g) ∧
    alerts g' = alerts g ∧ localStorage g' = localStorage g ∧
    cellSize g' = cellSize g ∧ mainCanvas g' = mainCanvas g.
Proof.
  destruct (probe_levels_seqZ assets 99%nat 1 0 g)
    as (k & g1 & Hk & Hrun & Hall & Hnext & Hkeep & Hsame).
  destruct Hsame as (Hgs & ? & ? & ? & ? & ? & ?).
  change (Z.of_nat 99) with 99 in Hrun.
  assert ((if decide (k = 0%nat) then 0 else 1 + Z.of_nat k - 1) = Z.of_nat k)
    as Hret by (case_decide; lia).
  rewrite Hret in Hrun.
  exists (Z.of_nat k), (set_gameState
                (mkGameState (currentLevel (gameState g1)) (Z.of_nat k)
                   (progress (gameState g1)) (currentScreen (gameState g1))) g1).
  split.
  { unfold determineMaxLevel, MAX_CHECK_LIMIT, mbind, Eff_bind.
    rewrite Hrun. reflexivity. }
  unfold MAX_CHECK_LIMIT. cbn [set_gameState gameState maxLevel parsedMazes maze
    player currentLevel progress currentScreen alerts localStorage cellSize
    mainCanvas].
  rewrite Hgs. split_and!; try done; try lia.
  - intros i Hi. apply Hall. lia.
  - intros Hlt. replace (Z.of_nat k + 1) with (1 + Z.of_nat k) by lia.
    apply Hnext. lia.
  - intros key Hkey. apply Hkeep. intros i Hi. apply Hkey. lia.
Qed.

(** X13. Level discovery. [determineMaxLevel] never throws and sets
    [maxLevel] to the number n, between 0 and 99, of leading levels 1, 2,
    ..., n whose images all decode: each of them is in the cache afterwards
    with its descriptor, level n+1 (if n < 99) does not decode, and so a
    level whose image is missing or bad hides every level after it.  Nothing
    else of the game changes, and no other cache entry is touched. *)
Theorem X13_level_discovery (assets : Assets) (g : MazeGame) :
  ∃ (n : Z) (g' : MazeGame),
    determineMaxLevel assets g = (Normal (), g') ∧
    0 ≤ n ≤ MAX_CHECK_LIMIT ∧
    maxLevel (gameState g') = n ∧
    (∀ i, 1 ≤ i ≤ n →
          ∃ d, parseMazeFromImage assets (getMazeConfig i) = Normal d ∧
               parsedMazes g' !! pretty i = Some d) ∧
    (n < MAX_CHECK_LIMIT →
       ∃ e, parseMazeFromImage assets (getMazeConfig (n + 1)) = Throw e) ∧
    (∀ j e, 1 ≤ j ≤ MAX_CHECK_LIMIT →
            parseMazeFromImage assets (getMazeConfig j) = Throw e → n < j) ∧
    (∀ key : string, (∀ i, 1 ≤ i ≤ n → key ≠ pretty i) →
          parsedMazes g' !! key = parsedMazes g !! key) ∧
    maze g' = maze g ∧ player g' = player g ∧
    currentLevel (gameState g') = currentLevel (gameState g) ∧
    progress (gameState g') = progress (gameState g) ∧
    currentScreen (gameState g') = currentScreen (gameState g) ∧
    alerts g' = alerts g ∧ localStorage g' = localStorage g ∧
    cellSize g' = cellSize g ∧ mainCanvas g' = mainCanvas g.
Proof.
  destruct (determineMaxLevel_spec assets g)
    as (n & g' & Hrun & Hn & Hmax & Hall & Hnext & Hkeep & Hrest).
  assert (∀ j e, 1 ≤ j ≤ MAX_CHECK_LIMIT →
            parseMazeFromImage assets (getMazeConfig j) = Throw e → n < j) as Hgap.
  { intros j e Hj Hfail. destruct (decide (n < j)) as [|Hge]; [done|].
    destruct (Hall j) as (d & Hd & _); [lia|]. congruence. }
  exists n, g'. tauto.
Qed.

(** With level 3 missing, levels 1 and 2 are found and level 4 is not. *)
Example discovery_stops_at_gap :
  let r := init MoreExamples.gapped (new_MazeGame None) in
  r.1 = Normal () ∧
  maxLevel (gameState r.2) = 2 ∧
  currentScreen (gameState r.2) = "title" ∧
  parsedMazes r.2 !! "2" = Some Mazes.corridor_data ∧
  parsedMazes r.2 !! "4" = None.
Proof. vm_compute. repeat split; reflexivity. Qed.

Lemma startLevel_ok assets level g d :
  level ≤ maxLevel (gameState g) →
  level_data assets level g = Normal d →
  let m := new_Maze d in
  let p := new_Player (cell_x (maze_start m)) (cell_y (maze_start m)) in
  ∃ g',
    startLevel assets level g = (Normal (), g') ∧
    maze g' = Some m ∧ player g' = Some p ∧
    mainCanvas g' = renderMaze m p ∧
    currentLevel (gameState g') = level ∧
    currentScreen (gameState g') = "game" ∧
    maxLevel (gameState g') = maxLevel (gameState g) ∧
    progress (gameState g') = progress (gameState g) ∧
    parsedMazes g' !! pretty level = Some d ∧
    (∀ key, key ≠ pretty level → parsedMazes g' !! key = parsedMazes g !! key) ∧
    alerts g' = alerts g ∧ localStorage g' = localStorage g.
Proof.
  intros Hle Hdata m p. unfold level_data in Hdata.
  unfold startLevel. run_eff.
  destruct (decide (level > maxLevel (gameState g))) as [?|_]; [lia|].
  simpl. destruct (parsedMazes g !! pretty level) as [d'|] eqn:Hcache.
  - injection Hdata as ->. unfold render. run_eff. simpl.
    eexists. split; [reflexivity|]. simpl. split_and!; done.
  - rewrite Hdata. unfold render. run_eff. simpl.
    eexists. split; [reflexivity|]. simpl. split_and!; try done.
    + by rewrite lookup_insert_eq.
    + intros key Hkey. by rewrite lookup_insert_ne.
Qed.

(** X14. Starting a level that is known and whose maze is in the cache, or
    whose image decodes, puts that maze in play: the maze is the one made
    from the descriptor, the player is a new player on its start cell, the
    main view is drawn for them, the game screen is shown, the descriptor is
    in the cache, and neither the progress nor the store nor the alerts
    change.  On a cache hit the image files are not looked at. *)
Theorem X14_startLevel_puts_maze_in_play
    (assets : Assets) (level : Z) (g : MazeGame) (d : MazeData) :
  level ≤ maxLevel (gameState g) →
  level_data assets level g = Normal d →
  let m := new_Maze d in
  let p := new_Player (cell_x (maze_start m)) (cell_y (maze_start m)) in
  (∃ g',
    startLevel assets level g = (Normal (), g') ∧
    maze g' = Some m ∧ player g' = Some p ∧
    mainCanvas g' = renderMaze m p ∧
    currentLevel (gameState g') = level ∧
    currentScreen (gameState g') = "game" ∧
    progress (gameState g') = progress (gameState g) ∧
    parsedMazes g' !! pretty level = Some d ∧
    alerts g' = alerts g ∧ localStorage g' = localStorage g) ∧
  (parsedMazes g !! pretty level = Some d →
   ∀ assets', startLevel assets' level g = startLevel assets level g).
Proof.
  intros Hle Hdata m p. split.
  - destruct (startLevel_ok assets level g d Hle Hdata)
      as (g' & ? & ? & ? & ? & ? & ? & ? & ? & ? & ? & ? & ?).
    exists g'. split_and!; done.
  - intros Hcache assets'. unfold startLevel. run_eff.
    destruct (decide (level > maxLevel (gameState g))); [done|].
    simpl. by rewrite Hcache.
Qed.

Lemma X14_startLevel_puts_maze_in_play_witness :
  let r := startLevel (Examples.only Examples.corridor) 2 Games.playing in
  maze r.2 = Some (new_Maze Mazes.corridor_data) ∧
  player r.2 = Some (new_Player 1 0) ∧
  currentScreen (gameState r.2) = "game".
Proof.
  assert (2 ≤ maxLevel (gameState Games.playing)) as Hle by (simpl; lia).
  assert (level_data (Examples.only Examples.corridor) 2 Games.playing
          = Normal Mazes.corridor_data) as Hdata by (vm_compute; reflexivity).
  destruct (X14_startLevel_puts_maze_in_play _ 2 Games.playing _ Hle Hdata)
    as [(g' & Hrun & Hm & Hp & _ & _ & Hs & _) _].
  intros r. subst r. rewrite Hrun. simpl. exact (conj Hm (conj Hp Hs)).
Defined.

(** X15. [startLevel] never throws, whatever the level number, the files and
    the state of the game: a level beyond [maxLevel] only raises the alert
    that it is not implemented and changes nothing else, and a level that
    cannot be loaded ends in the [catch] branch. *)
Theorem X15_startLevel_never_throws (assets : Assets) (level : Z) (g : MazeGame) :
  (∃ g', startLevel assets level g = (Normal (), g')) ∧
  (level > maxLevel (gameState g) →
   startLevel assets level g
   = (Normal (),
      mkMazeGame (gameState g) (maze g) (player g) (cellSize g) (parsedMazes g)
                 (mainCanvas g) (alerts g ++ [not_implemented_message])
                 (localStorage g))).
Proof.
  split.
  - destruct (decide (level > maxLevel (gameState g))) as [Hgt|Hle].
    + unfold startLevel. run_eff. rewrite decide_True by done. eauto.
    + destruct (level_data assets level g) as [d|e] eqn:Hdata.
      * destruct (startLevel_ok assets level g d ltac:(lia) Hdata) as (g' & Hrun & _).
        eauto.
      * unfold level_data in Hdata. unfold startLevel. run_eff.
        rewrite decide_False by done. simpl.
        destruct (parsedMazes g !! pretty level); [done|]. rewrite Hdata.
        match goal with |- context [showLevelSelect assets ?g1] =>
          destruct (showLevelSelect_spec assets g1) as (g' & -> & _)
        end.
        eauto.
  - intros Hgt. unfold startLevel. run_eff. by rewrite decide_True.
Qed.

(** X16. Discovery and play compose. After [determineMaxLevel] has run,
    every level from 1 to the [maxLevel] it found starts without an error
    and without decoding again: whatever the image files are by then, even
    if they are all gone, [startLevel] puts in play the maze that was decoded
    at discovery. *)
Theorem X16_discovered_levels_start
    (assets assets' : Assets) (g : MazeGame) (level : Z) :
  let g1 := (determineMaxLevel assets g).2 in
  1 ≤ level ≤ maxLevel (gameState g1) →
  ∃ d g2,
    parseMazeFromImage assets (getMazeConfig level) = Normal d ∧
    startLevel assets' level g1 = (Normal (), g2) ∧
    maze g2 = Some (new_Maze d) ∧
    player g2 = Some (new_Player (cell_x (data_start d)) (cell_y (data_start d))) ∧
    currentScreen (gameState g2) = "game" ∧
    alerts g2 = alerts g.
Proof.
  intros g1 Hlevel. subst g1.
  destruct (determineMaxLevel_spec assets g)
    as (n & g1 & Hrun & Hn & Hmax & Hall & _ & _ & _ & _ & _ & _ & _ & Halerts & _).
  rewrite Hrun in *. simpl in *.
  destruct (Hall level) as (d & Hd & Hcache); [lia|].
  assert (level_data assets' level g1 = Normal d) as Hdata.
  { unfold level_data. by rewrite Hcache. }
  destruct (startLevel_ok assets' level g1 d ltac:(lia) Hdata)
    as (g2 & Hstart & Hm & Hp & _ & _ & Hs & _ & _ & _ & _ & Ha & _).
  exists d, g2. split_and!; try done. congruence.
Qed.

Lemma X16_discovered_levels_start_witness :
  let g1 := (determineMaxLevel MoreExamples.gapped (new_MazeGame None)).2 in
  ∃ g2, startLevel Examples.nothing 2 g1 = (Normal (), g2) ∧
        maze g2 = Some (new_Maze Mazes.corridor_data).
Proof.
  intros g1.
  assert (1 ≤ 2 ≤ maxLevel (gameState g1)) as Hlevel.
  { assert (maxLevel (gameState g1) = 2) as -> by (vm_compute; reflexivity). lia. }
  destruct (X16_discovered_levels_start MoreExamples.gapped Examples.nothing
              (new_MazeGame None) 2 Hlevel)
    as (d & g2 & Hd & Hrun & Hm & _).
  exists g2. split; [exact Hrun|].
  assert (d = Mazes.corridor_data) as <-.
  { assert (parseMazeFromImage MoreExamples.gapped (getMazeConfig 2)
            = Normal Mazes.corridor_data) as Hd' by (vm_compute; reflexivity).
    congruence. }
  exact Hm.
Defined.

(* ===================================================================== *)
(** ** Further properties: moving in the game *)
(* ===================================================================== *)

Lemma set_player_same g p : player g = Some p → set_player (Some p) g = g.
Proof. destruct g. simpl. by intros ->. Qed.

Lemma movePlayer_off_screen dx dy g :
  currentScreen (gameState g) ≠ "game" → movePlayer dx dy g = (Normal (), g).
Proof. intros Hs. unfold movePlayer. run_eff. by rewrite decide_False. Qed.

Lemma movePlayer_run dx dy g m p :
  maze g = Some m → player g = Some p →
  currentScreen (gameState g) = "game" →
  movePlayer dx dy g = (Normal (), moved_game dx dy m p g).
Proof.
  intros Hm Hp Hs. unfold movePlayer, moved_game. run_eff.
  rewrite decide_True by done. rewrite Hm, Hp.
  destruct (move dx dy m p) as [p' moved] eqn:Hmove. simpl.
  destruct moved.
  - unfold render. run_eff. simpl. rewrite Hm.
    destruct (isAtGoal p' m); [|done].
    unfold game_completeLevel, completed_game. run_eff. simpl. done.
  - assert (p' = p) as ->.
    { revert Hmove. unfold move. destruct (negb _); intros Heq;
        by simplify_eq. }
    by rewrite set_player_same.
Qed.

(** X17. A move that is refused changes nothing. When the candidate cell is
    a wall, [movePlayer] leaves the whole game as it was: the player, the
    canvas (no redraw), the progress and the store; and so does any call of
    [movePlayer] while another screen than the game screen is shown. *)
Theorem X17_refused_move_changes_nothing
    (dx dy : Z) (g : MazeGame) (m : Maze) (p : Player) :
  maze g = Some m → player g = Some p →
  (isWall m (player_x p + dx) (player_y p + dy) = true ∨
   currentScreen (gameState g) ≠ "game") →
  movePlayer dx dy g = (Normal (), g).
Proof.
  intros Hm Hp Hwhy.
  destruct (decide (currentScreen (gameState g) = "game")) as [Hs|Hs];
    [|by apply movePlayer_off_screen].
  destruct Hwhy as [Hwall|?]; [|done].
  rewrite (movePlayer_run dx dy g m p Hm Hp Hs). unfold moved_game.
  by rewrite (move_reject _ _ _ _ Hwall).
Qed.

Lemma X17_refused_move_changes_nothing_witness :
  movePlayer (-1) 0 Games.playing = (Normal (), Games.playing).
Proof.
  apply (X17_refused_move_changes_nothing (-1) 0 Games.playing
           (new_Maze Examples.room_data) (new_Player 1 1) eq_refl eq_refl).
  left. vm_compute. reflexivity.
Defined.

(** X18. Reaching the goal completes the level. When the game screen is
    shown and the candidate cell is the goal and no wall, [movePlayer] puts
    the player on the goal, shows the clear screen, marks the current level
    completed and the next one unlocked, and saves the player's visited set
    as the level's path: read from the progress or from the store it is that
    set, goal included.  After that no call of [movePlayer] changes the
    game. *)
Theorem X18_reaching_goal_completes_level
    (dx dy : Z) (g : MazeGame) (m : Maze) (p : Player) :
  maze g = Some m → player g = Some p →
  currentScreen (gameState g) = "game" →
  StrSet.wf (visitedCells p) →
  player_x p + dx = cell_x (maze_goal m) →
  player_y p + dy = cell_y (maze_goal m) →
  isWall m (cell_x (maze_goal m)) (cell_y (maze_goal m)) = false →
  ∃ g' p',
    movePlayer dx dy g = (Normal (), g') ∧
    player g' = Some p' ∧
    (player_x p', player_y p') = (cell_x (maze_goal m), cell_y (maze_goal m)) ∧
    currentScreen (gameState g') = "clear" ∧
    isLevelCompleted (currentLevel (gameState g)) (gameState g') = true ∧
    isLevelUnlocked (currentLevel (gameState g) + 1) (gameState g') = true ∧
    getCompletedPath (currentLevel (gameState g)) (gameState g') = visitedCells p' ∧
    getCompletedPath (currentLevel (gameState g)) (new_GameState (localStorage g'))
      = visitedCells p' ∧
    hasVisited p' (cell_x (maze_goal m)) (cell_y (maze_goal m)) = true ∧
    (∀ dx' dy', movePlayer dx' dy' g' = (Normal (), g')).
Proof.
  intros Hm Hp Hs Hwf Hx Hy Hfree.
  rewrite (movePlayer_run dx dy g m p Hm Hp Hs). unfold moved_game.
  rewrite move_commit by (by rewrite Hx, Hy). rewrite Hx, Hy. simpl.
  set (p' := mkPlayer (cell_x (maze_goal m)) (cell_y (maze_goal m)) _).
  assert (isAtGoal p' m = true) as ->.
  { unfold isAtGoal. simpl. by rewrite !bool_decide_eq_true_2. }
  assert (StrSet.wf (visitedCells p')) as Hwf' by by apply StrSet_add_wf.
  eexists _, p'. split; [reflexivity|].
  unfold completed_game. simpl.
  split_and!; try (intros dx' dy'; by apply movePlayer_off_screen); try done.
  - unfold isLevelCompleted. simpl. by rewrite lookup_insert_eq.
  - unfold isLevelUnlocked, isLevelCompleted. simpl.
    replace (currentLevel (gameState g) + 1 - 1) with (currentLevel (gameState g))
      by lia.
    rewrite lookup_insert_eq. apply orb_true_r.
  - unfold getCompletedPath. simpl. rewrite lookup_insert_eq.
    by apply StrSet_of_to_array.
  - unfold getCompletedPath. simpl. rewrite lookup_insert_eq.
    by apply StrSet_of_to_array.
  - apply hasVisited_true. simpl. apply StrSet_elem_of_add. by left.
Qed.

Lemma X18_reaching_goal_completes_level_witness :
  let m := new_Maze Examples.room_data in
  let p := moves m (new_Player 1 1) [(1, 0); (1, 0); (0, 1)] in
  let g := set_player (Some p) Games.playing in
  ∃ g', movePlayer 0 1 g = (Normal (), g') ∧
        currentScreen (gameState g') = "clear" ∧
        isLevelCompleted 1 (gameState g') = true.
Proof.
  intros m p g.
  assert (StrSet.wf (visitedCells p)) as Hwf.
  { unfold StrSet.wf. apply (bool_decide_unpack (NoDup (visitedCells p))).
    vm_compute. exact I. }
  assert (player_x p + 0 = cell_x (maze_goal m)) as Hx by (vm_compute; reflexivity).
  assert (player_y p + 1 = cell_y (maze_goal m)) as Hy by (vm_compute; reflexivity).
  assert (isWall m (cell_x (maze_goal m)) (cell_y (maze_goal m)) = false) as Hfree
    by (vm_compute; reflexivity).
  destruct (X18_reaching_goal_completes_level 0 1 g m p eq_refl eq_refl eq_refl
              Hwf Hx Hy Hfree)
    as (g' & p' & Hrun & _ & _ & Hs & Hc & _).
  exists g'. exact (conj Hrun (conj Hs Hc)).
Defined.

Lemma key_step_orthogonal key d : key_step key = Some d → d ∈ orthogonal_steps.
Proof.
  unfold key_step, orthogonal_steps. repeat case_decide; intros [= <-];
    rewrite !elem_of_cons; auto 6.
Qed.

Lemma lower_ascii_idemp c : lower_ascii (lower_ascii c) = lower_ascii c.
Proof.
  destruct c as [[] [] [] [] [] [] [] []]; vm_compute; reflexivity.
Qed.

Lemma toLowerCase_idemp s : toLowerCase (toLowerCase s) = toLowerCase s.
Proof.
  induction s as [|c s IH]; simpl; [done|]. by rewrite lower_ascii_idemp, IH.
Qed.

Lemma moved_game_player dx dy m p g :
  maze g = Some m → player g = Some p →
  maze (moved_game dx dy m p g) = Some m ∧
  player (moved_game dx dy m p g) = Some (move dx dy m p).1.
Proof.
  intros Hm Hp. unfold moved_game, move.
  destruct (negb _); simpl; [|done].
  destruct (isAtGoal _ m); simpl; done.
Qed.

Lemma move_distance dx dy m p :
  Z.abs dx + Z.abs dy ≤ 1 →
  Z.abs (player_x (move dx dy m p).1 - player_x p) +
  Z.abs (player_y (move dx dy m p).1 - player_y p) ≤ 1.
Proof. intros Hd. unfold move. destruct (negb _); simpl; lia. Qed.

(** X19. One key, at most one cell. Whatever key is pressed, and whatever
    the case of its letters, [handleGameKeyPress] never throws while a level
    is in play, keeps the maze, and leaves the player where it was or one
    cell away along a single axis: the only steps the keys and the four
    on-screen buttons ever give are up, down, left and right, so no diagonal
    move is made.  A key that is none of W, A, S, D and the arrows changes
    nothing. *)
Theorem X19_key_moves_at_most_one_cell
    (key : string) (g : MazeGame) (m : Maze) (p : Player) :
  maze g = Some m → player g = Some p →
  (∃ g' p',
     handleGameKeyPress key g = (Normal (), g') ∧
     maze g' = Some m ∧ player g' = Some p' ∧
     Z.abs (player_x p' - player_x p) + Z.abs (player_y p' - player_y p) ≤ 1 ∧
     (key_step key = None → g' = g)) ∧
  (∀ d, key_step key = Some d → d ∈ orthogonal_steps) ∧
  key_step (toLowerCase key) = key_step key ∧
  (∀ b, b ∈ controlButtons → b.2 ∈ orthogonal_steps).
Proof.
  intros Hm Hp. split_and!.
  - unfold handleGameKeyPress. destruct (key_step key) as [d|] eqn:Hkey.
    + destruct (decide (currentScreen (gameState g) = "game")) as [Hs|Hs].
      * rewrite (movePlayer_run _ _ g m p Hm Hp Hs).
        destruct (moved_game_player d.1 d.2 m p g Hm Hp) as [Hm' Hp'].
        eexists _, _. split_and!; [reflexivity|exact Hm'|exact Hp'| |done].
        apply move_distance. apply key_step_orthogonal in Hkey.
        unfold orthogonal_steps in Hkey.
        rewrite !elem_of_cons, elem_of_nil in Hkey.
        destruct Hkey as [->|[->|[->|[->|[]]]]]; simpl; lia.
      * rewrite movePlayer_off_screen by done.
        exists g, p. split_and!; try done. lia.
    + exists g, p. split_and!; try done. lia.
  - apply key_step_orthogonal.
  - unfold key_step. by rewrite toLowerCase_idemp.
  - intros b. unfold controlButtons, orthogonal_steps.
    rewrite !elem_of_cons, !elem_of_nil.
    intros [->|[->|[->|[->|[]]]]]; simpl; auto 6.
Qed.

Lemma X19_key_moves_at_most_one_cell_witness :
  ∃ g', handleGameKeyPress "ArrowRight" Games.playing = (Normal (), g') ∧
        player g' = Some (mkPlayer 2 1 ["1,1"; "2,1"]).
Proof.
  destruct (X19_key_moves_at_most_one_cell "ArrowRight" Games.playing
              (new_Maze Examples.room_data) (new_Player 1 1) eq_refl eq_refl)
    as [(g' & p' & Hrun & _ & Hp & _) _].
  exists g'. split; [exact Hrun|].
  assert ((handleGameKeyPress "ArrowRight" Games.playing).2
          = g') as Hg by (rewrite Hrun; reflexivity).
  rewrite <-Hg. vm_compute. reflexivity.
Defined.

(* ===================================================================== *)
(** ** Further properties: the views *)
(* ===================================================================== *)

(** X20. The spotlight is never cut off. With the player on a cell of the
    maze, every cell of the maze in the 3x3 block around the player, the
    player's own cell first of all, is drawn in the main view, in the camera
    branch as well as when the maze fits the view, and for mazes narrower or
    lower than the view too. *)
Theorem X20_spotlight_always_drawn (m : Maze) (p : Player) (x y : Z) :
  0 ≤ player_x p < maze_width m → 0 ≤ player_y p < maze_height m →
  0 ≤ x < maze_width m → 0 ≤ y < maze_height m →
  Z.abs (x - player_x p) ≤ 1 → Z.abs (y - player_y p) ≤ 1 →
  drawn m p x y.
Proof.
  intros Hpx Hpy Hx Hy Hdx Hdy. apply drawn_iff. split_and!; try lia.
  - destruct (camera_follow m) eqn:Hc.
    + rewrite (camera_window _ _ Hc). simpl. lia.
    + rewrite (whole_window _ _ Hc). simpl. lia.
  - destruct (camera_follow m) eqn:Hc.
    + rewrite (camera_window _ _ Hc). simpl. lia.
    + rewrite (whole_window _ _ Hc). simpl. lia.
  - destruct (camera_follow m) eqn:Hc.
    + rewrite (camera_window _ _ Hc). simpl. lia.
    + rewrite (whole_window _ _ Hc). simpl. lia.
  - destruct (camera_follow m) eqn:Hc.
    + rewrite (camera_window _ _ Hc). simpl. lia.
    + rewrite (whole_window _ _ Hc). simpl. lia.
  - left. apply isInView_chebyshev. lia.
Qed.

Lemma X20_spotlight_always_drawn_witness :
  drawn (new_Maze Mazes.tower_data) (new_Player 0 0) 1 1.
Proof.
  apply X20_spotlight_always_drawn; simpl; lia.
Defined.

(** X21. The camera on a maze at least as large as the view. When both
    sides of the maze are at least 25 cells and the player is on a cell of
    the maze, the window is 25 by 25 cells, lies wholly inside the maze and
    holds the player; the player is in its middle column (row), 12 cells
    from the window's left (upper) edge, unless it is within 12 cells of an
    edge of the maze, where the window stops at that edge. *)
Theorem X21_camera_centres_player (m : Maze) (p : Player) :
  camera_follow m = true →
  MAX_VISIBLE_CELLS ≤ maze_width m → MAX_VISIBLE_CELLS ≤ maze_height m →
  0 ≤ player_x p < maze_width m → 0 ≤ player_y p < maze_height m →
  let w := window m p in
  (0 ≤ startX w ∧ endX w ≤ maze_width m - 1 ∧
   0 ≤ startY w ∧ endY w ≤ maze_height m - 1) ∧
  (endX w - startX w + 1 = 25 ∧ endY w - startY w + 1 = 25) ∧
  (startX w ≤ player_x p ≤ endX w ∧ startY w ≤ player_y p ≤ endY w) ∧
  (12 ≤ player_x p ≤ maze_width m - 13 → player_x p - startX w = 12) ∧
  (12 ≤ player_y p ≤ maze_height m - 13 → player_y p - startY w = 12) ∧
  (player_x p ≤ 12 → startX w = 0) ∧
  (maze_width m - 13 ≤ player_x p → endX w = maze_width m - 1) ∧
  (player_y p ≤ 12 → startY w = 0) ∧
  (maze_height m - 13 ≤ player_y p → endY w = maze_height m - 1).
Proof.
  intros Hc Hw Hh Hx Hy. rewrite (camera_window _ _ Hc). simpl.
  unfold MAX_VISIBLE_CELLS in *. lia.
Qed.

Lemma X21_camera_centres_player_witness :
  window Wide.maze Wide.walker = mkWindow 3 8 27 32 ∧
  player_x Wide.walker - startX (window Wide.maze Wide.walker) = 12.
Proof.
  split; [vm_compute; reflexivity|].
  assert (camera_follow Wide.maze = true) as Hc by (vm_compute; reflexivity).
  assert (MAX_VISIBLE_CELLS ≤ maze_width Wide.maze) as Hw by (vm_compute; congruence).
  assert (MAX_VISIBLE_CELLS ≤ maze_height Wide.maze) as Hh by (vm_compute; congruence).
  assert (0 ≤ player_x Wide.walker < maze_width Wide.maze) as Hx by (simpl; lia).
  assert (0 ≤ player_y Wide.walker < maze_height Wide.maze) as Hy by (simpl; lia).
  destruct (X21_camera_centres_player Wide.maze Wide.walker Hc Hw Hh Hx Hy)
    as (_ & _ & _ & Hmid & _).
  apply Hmid. simpl. lia.
Defined.

Lemma minimap_cell_rect m p y' x' x y style :
  mkDrawOp x y (FillRect style) ∈ minimap_cell m p y' x' ↔
  (x' = x ∧ y' = y) ∧
  ((style = "#333" ∧ isWall m x y = true) ∨
   (style = "#ADD8E6" ∧ isWall m x y = false ∧ hasVisited p x y = true) ∨
   (style = "#0000FF" ∧ x = cell_x (maze_start m) ∧ y = cell_y (maze_start m)) ∨
   (style = "#FF0000" ∧
    ¬ (x = cell_x (maze_start m) ∧ y = cell_y (maze_start m)) ∧
    (x = cell_x (maze_goal m) ∧ y = cell_y (maze_goal m)) ∧
    hasVisited p x y = true)).
Proof.
  unfold minimap_cell. rewrite !elem_of_app.
  assert (mkDrawOp x y (FillRect style) ∈
            (if isWall m x' y' then [mkDrawOp x' y' (FillRect "#333")]
             else if hasVisited p x' y' then [mkDrawOp x' y' (FillRect "#ADD8E6")]
             else []) ↔
          (x' = x ∧ y' = y) ∧
          ((style = "#333" ∧ isWall m x y = true) ∨
           (style = "#ADD8E6" ∧ isWall m x y = false ∧ hasVisited p x y = true)))
    as ->.
  { destruct (isWall m x' y') eqn:Ew; [|destruct (hasVisited p x' y') eqn:Ev];
      rewrite ?list_elem_of_singleton, ?elem_of_nil; split.
    - intros [= -> -> ->]. auto.
    - intros [[-> ->] [[-> _]|[_ [? _]]]]; [done|congruence].
    - intros [= -> -> ->]. auto.
    - intros [[-> ->] [[_ ?]|[-> _]]]; [congruence|done].
    - done.
    - intros [[-> ->] [[_ ?]|[_ [_ ?]]]]; congruence. }
  assert (mkDrawOp x y (FillRect style) ∈
            (if bool_decide (x' = cell_x (maze_start m)) &&
                bool_decide (y' = cell_y (maze_start m))
             then [mkDrawOp x' y' (FillRect "#0000FF")]
             else if bool_decide (x' = cell_x (maze_goal m)) &&
                     bool_decide (y' = cell_y (maze_goal m))
             then (if hasVisited p x' y' then [mkDrawOp x' y' (FillRect "#FF0000")]
                   else [])
             else []) ↔
          (x' = x ∧ y' = y) ∧
          ((style = "#0000FF" ∧ x = cell_x (maze_start m) ∧ y = cell_y (maze_start m)) ∨
           (style = "#FF0000" ∧
            ¬ (x = cell_x (maze_start m) ∧ y = cell_y (maze_start m)) ∧
            (x = cell_x (maze_goal m) ∧ y = cell_y (maze_goal m)) ∧
            hasVisited p x y = true)))
    as ->.
  { destruct (bool_decide (x' = cell_x (maze_start m)) &&
              bool_decide (y' = cell_y (maze_start m))) eqn:Es.
    - apply andb_true_iff in Es as [Hsx%bool_decide_eq_true Hsy%bool_decide_eq_true].
      rewrite list_elem_of_singleton. split.
      + intros [= -> -> ->]. auto.
      + intros [[-> ->] [[-> _]|[_ [Hns _]]]]; [done|]. by destruct Hns.
    - rewrite andb_false_iff, !bool_decide_eq_false in Es.
      destruct (bool_decide (x' = cell_x (maze_goal m)) &&
                bool_decide (y' = cell_y (maze_goal m))) eqn:Eg.
      + apply andb_true_iff in Eg as [Hgx%bool_decide_eq_true Hgy%bool_decide_eq_true].
        destruct (hasVisited p x' y') eqn:Ev;
          rewrite ?list_elem_of_singleton, ?elem_of_nil; split.
        * intros [= -> -> ->]. split; [done|]. right. split_and!; try done. tauto.
        * intros [[-> ->] [[_ [? ?]]|[-> _]]]; [tauto|done].
        * done.
        * intros [[-> ->] [[_ [? ?]]|[_ [_ [_ ?]]]]]; [tauto|congruence].
      + rewrite andb_false_iff, !bool_decide_eq_false in Eg.
        rewrite elem_of_nil. split; [done|].
        intros [[-> ->] [[_ [? ?]]|[_ [_ [[? ?] _]]]]]; tauto. }
  assert (mkDrawOp x y (FillRect style) ∈
            (if bool_decide (x' = player_x p) && bool_decide (y' = player_y p)
             then [mkDrawOp x' y' (FillArc "#4CAF50")] else []) ↔ False) as ->.
  { destruct (_ && _); rewrite ?list_elem_of_singleton, ?elem_of_nil; [|done].
    split; [intros [=]|done]. }
  tauto.
Qed.

(** X22. What the minimap gives away. A cell is painted on the minimap
    only if it is a cell of the maze, and then in the wall colour exactly
    when it is a wall, in the path colour exactly when it is a visited cell
    that is no wall, in the start colour exactly when it is the start, and
    in the goal colour exactly when it is the goal, is not the start, and
    has been visited: a free cell that was never visited is left in the
    background colour, and the goal stays hidden until the player has been
    on it. *)
Theorem X22_minimap_shows_only_the_known
    (m : Maze) (p : Player) (x y : Z) (style : string) :
  minimap_background (renderMinimap m p) = "#333" ∧
  (minimap_shows m p x y style ↔
   (0 ≤ x < maze_width m ∧ 0 ≤ y < maze_height m) ∧
   ((style = "#333" ∧ isWall m x y = true) ∨
    (style = "#ADD8E6" ∧ isWall m x y = false ∧ hasVisited p x y = true) ∨
    (style = "#0000FF" ∧ x = cell_x (maze_start m) ∧ y = cell_y (maze_start m)) ∨
    (style = "#FF0000" ∧
     ¬ (x = cell_x (maze_start m) ∧ y = cell_y (maze_start m)) ∧
     (x = cell_x (maze_goal m) ∧ y = cell_y (maze_goal m)) ∧
     hasVisited p x y = true))).
Proof.
  split; [done|]. unfold minimap_shows, renderMinimap. simpl.
  rewrite list_elem_of_bind. split.
  - intros (y' & (x' & Hop & Hx%elem_of_seqZ)%list_elem_of_bind & Hy%elem_of_seqZ).
    apply minimap_cell_rect in Hop as [[-> ->] Hcase]. split; [lia|done].
  - intros [[Hx Hy] Hcase]. exists y. split; [|apply elem_of_seqZ; lia].
    apply list_elem_of_bind. exists x. split; [|apply elem_of_seqZ; lia].
    apply minimap_cell_rect. done.
Qed.

Lemma legacy_draw_cell_at m p y x op :
  op ∈ Legacy.draw_cell m p y x → op_x op = x ∧ op_y op = y.
Proof.
  unfold Legacy.draw_cell. repeat case_match; simpl;
    rewrite ?elem_of_cons, ?elem_of_nil; intros Hop;
    repeat destruct Hop as [Hop|Hop]; subst; done.
Qed.

Lemma legacy_draw_cell_some m p y x :
  (∃ op, op ∈ Legacy.draw_cell m p y x) ↔
  isInView p x y = true ∨ hasVisited p x y = true.
Proof.
  unfold Legacy.draw_cell.
  destruct (isInView p x y || hasVisited p x y) eqn:Evis.
  - apply orb_true_iff in Evis. split; [done|].
    intros _. destruct (isWall m x y); eexists; left.
  - apply orb_false_iff in Evis as [E1 E2]. rewrite E1, E2. split.
    + intros [op Hop]. by apply elem_of_nil in Hop.
    + intros [|]; done.
Qed.

(** X23. The main view of the older script. [renderMaze] of [script.js]
    has no camera: it goes over the whole maze and draws a cell if and only
    if it is a cell of the maze that lies in the 3x3 spotlight around the
    player or has been visited. *)
Theorem X23_legacy_view_draws_spotlight_or_visited
    (m : Maze) (p : Player) (x y : Z) :
  Legacy.drawn m p x y ↔
  (0 ≤ x < maze_width m ∧ 0 ≤ y < maze_height m) ∧
  (Z.max (Z.abs (x - player_x p)) (Z.abs (y - player_y p)) ≤ 1 ∨
   cellKey x y ∈ visitedCells p).
Proof.
  rewrite <-isInView_chebyshev, <-hasVisited_true.
  unfold Legacy.drawn, Legacy.draw_cells. split.
  - intros (op & Hop & <- & <-).
    apply list_elem_of_bind in Hop as (y' & Hop & Hy%elem_of_seqZ).
    apply list_elem_of_bind in Hop as (x' & Hop & Hx%elem_of_seqZ).
    destruct (legacy_draw_cell_at _ _ _ _ _ Hop) as [-> ->].
    split; [lia|]. apply (legacy_draw_cell_some m). eauto.
  - intros (Hwin & Hvis). apply (legacy_draw_cell_some m) in Hvis as [op Hop].
    exists op. destruct (legacy_draw_cell_at _ _ _ _ _ Hop) as [? ?].
    split; [|done].
    apply list_elem_of_bind. exists y. split; [|apply elem_of_seqZ; lia].
    apply list_elem_of_bind. exists x. split; [done|apply elem_of_seqZ; lia].
Qed.

(* ===================================================================== *)
(** ** Further properties: the keys of the clear screen *)
(* ===================================================================== *)

(** X24. The arrow keys of the clear screen stay on the buttons. With n
    visible buttons (n at least 1) and the focus on one of them or on none,
    a key press that moves the focus moves it to one of the n buttons, never
    past either end: ArrowDown goes to the next button and from the last to
    the first, ArrowUp goes to the one before and from the first to the
    last, either key goes to the first button when none had the focus, and
    ArrowUp undoes ArrowDown. *)
Theorem X24_clear_screen_focus_stays_in_range
    (key : string) (n currentIndex : Z) (focusedIsMenuButton : bool) :
  1 ≤ n → -1 ≤ currentIndex < n →
  (∀ i, handleClearScreenKeyPress key n currentIndex focusedIsMenuButton
        = FocusButton i → 0 ≤ i < n) ∧
  handleClearScreenKeyPress "ArrowDown" n currentIndex focusedIsMenuButton
    = FocusButton (if decide (currentIndex = n - 1) then 0 else currentIndex + 1) ∧
  handleClearScreenKeyPress "ArrowUp" n currentIndex focusedIsMenuButton
    = FocusButton (if decide (currentIndex ≤ 0) then
                     (if decide (currentIndex = -1) then 0 else n - 1)
                   else currentIndex - 1) ∧
  (0 ≤ currentIndex →
   ∀ i, handleClearScreenKeyPress "ArrowDown" n currentIndex focusedIsMenuButton
        = FocusButton i →
        handleClearScreenKeyPress "ArrowUp" n i focusedIsMenuButton
        = FocusButton currentIndex).
Proof.
  intros Hn Hcur.
  assert (∀ b, handleClearScreenKeyPress "ArrowDown" n currentIndex b
      = FocusButton (if decide (currentIndex = n - 1) then 0 else currentIndex + 1))
    as Hdown.
  { intros b. unfold handleClearScreenKeyPress.
    rewrite decide_False by lia. simpl. f_equal.
    destruct (decide (currentIndex = -1)) as [->|Hne].
    - case_decide; lia.
    - case_decide as Hlast.
      + replace (currentIndex + 1) with n by lia. apply Z.rem_same. lia.
      + apply Z.rem_small. lia. }
  assert (∀ c b, -1 ≤ c < n → handleClearScreenKeyPress "ArrowUp" n c b
      = FocusButton (if decide (c ≤ 0) then (if decide (c = -1) then 0 else n - 1)
                     else c - 1)) as Hup.
  { intros c b Hc. unfold handleClearScreenKeyPress.
    rewrite decide_False by lia. simpl. f_equal.
    destruct (decide (c = -1)) as [->|Hne]; [done|].
    destruct (decide (c ≤ 0)) as [H0|H0].
    - replace (c - 1 + n) with (n - 1) by lia. apply Z.rem_small. lia.
    - replace (c - 1 + n) with (c - 1 + 1 * n) by lia.
      rewrite Z.rem_mod_nonneg, Z.mod_add by lia.
      apply Z.mod_small. lia. }
  split_and!.
  - intros i Hi.
    destruct (decide (key = "ArrowDown")) as [->|Hnd].
    { rewrite Hdown in Hi. injection Hi as <-. case_decide; lia. }
    destruct (decide (key = "ArrowUp")) as [->|Hnu].
    { rewrite Hup in Hi by done. injection Hi as <-.
      destruct (decide (currentIndex ≤ 0)); [|lia].
      destruct (decide (currentIndex = -1)); lia. }
    revert Hi. unfold handleClearScreenKeyPress.
    rewrite decide_False by lia.
    destruct (decide (key = "Enter" ∨ key = " ")); [by destruct focusedIsMenuButton|].
    rewrite decide_False by tauto. done.
  - apply Hdown.
  - by apply Hup.
  - intros H0 i. rewrite Hdown. intros [= <-].
    case_decide as Hlast.
    + rewrite Hup by lia. f_equal. repeat case_decide; lia.
    + rewrite Hup by lia. f_equal. repeat case_decide; lia.
Qed.

Lemma X24_clear_screen_focus_stays_in_range_witness :
  handleClearScreenKeyPress "ArrowDown" 2 1 true = FocusButton 0 ∧
  handleClearScreenKeyPress "ArrowUp" 2 0 true = FocusButton 1.
Proof.
  assert (1 ≤ 2) as Hn by lia.
  assert (-1 ≤ 1 < 2) as H1 by lia.
  assert (-1 ≤ 0 < 2) as H0 by lia.
  split.
  - exact (proj1 (proj2 (X24_clear_screen_focus_stays_in_range "x" 2 1 true Hn H1))).
  - exact (proj1 (proj2 (proj2
             (X24_clear_screen_focus_stays_in_range "x" 2 0 true Hn H0)))).
Defined.

(* ===================================================================== *)
(** ** Further properties: a level from its start to its end *)
(* ===================================================================== *)

(** X25. An ordinary step. On the game screen, a move onto a free cell that
    is not the goal puts the player there, redraws the main view for the new
    position and changes nothing else: the game screen stays, and nothing is
    written to the progress or to the store before the goal is reached. *)
Theorem X25_ordinary_step_redraws_only
    (dx dy : Z) (g : MazeGame) (m : Maze) (p : Player) :
  maze g = Some m → player g = Some p →
  currentScreen (gameState g) = "game" →
  isWall m (player_x p + dx) (player_y p + dy) = false →
  ¬ (player_x p + dx = cell_x (maze_goal m) ∧ player_y p + dy = cell_y (maze_goal m)) →
  let p' := mkPlayer (player_x p + dx) (player_y p + dy)
              (StrSet.add (cellKey (player_x p + dx) (player_y p + dy))
                          (visitedCells p)) in
  movePlayer dx dy g
  = (Normal (),
     mkMazeGame (gameState g) (Some m) (Some p') (cellSize g) (parsedMazes g)
                (renderMaze m p') (alerts g) (localStorage g)).
Proof.
  intros Hm Hp Hs Hfree Hnotgoal p'.
  rewrite (movePlayer_run dx dy g m p Hm Hp Hs). unfold moved_game.
  rewrite (move_commit _ _ _ _ Hfree). simpl. fold p'.
  assert (isAtGoal p' m = false) as ->.
  { unfold isAtGoal. simpl. apply andb_false_iff.
    rewrite !bool_decide_eq_false. lia. }
  unfold set_mainCanvas, set_player. simpl. by rewrite Hm.
Qed.

Lemma X25_ordinary_step_redraws_only_witness :
  ∃ g', movePlayer 1 0 Games.playing = (Normal (), g') ∧
        player g' = Some (mkPlayer 2 1 ["1,1"; "2,1"]) ∧
        localStorage g' = None.
Proof.
  assert (isWall (new_Maze Examples.room_data)
            (player_x (new_Player 1 1) + 1) (player_y (new_Player 1 1) + 0) = false)
    as Hfree by (vm_compute; reflexivity).
  assert (¬ (player_x (new_Player 1 1) + 1 = cell_x (maze_goal (new_Maze Examples.room_data)) ∧
             player_y (new_Player 1 1) + 0 = cell_y (maze_goal (new_Maze Examples.room_data))))
    as Hnotgoal by (simpl; lia).
  eexists. split.
  - exact (X25_ordinary_step_redraws_only 1 0 Games.playing
             (new_Maze Examples.room_data) (new_Player 1 1)
             eq_refl eq_refl eq_refl Hfree Hnotgoal).
  - split; vm_compute; reflexivity.
Defined.

Lemma handleGameKeyPress_step key g m p :
  maze g = Some m → player g = Some p →
  ∃ g', handleGameKeyPress key g = (Normal (), g') ∧
        maze g' = Some m ∧
        (player g' = Some p ∨ ∃ d, player g' = Some (move d.1 d.2 m p).1).
Proof.
  intros Hm Hp. unfold handleGameKeyPress.
  destruct (key_step key) as [d|]; [|by eauto].
  destruct (decide (currentScreen (gameState g) = "game")) as [Hs|Hs].
  - rewrite (movePlayer_run _ _ g m p Hm Hp Hs).
    destruct (moved_game_player d.1 d.2 m p g Hm Hp) as [Hm' Hp'].
    eexists. split_and!; [reflexivity|done|]. right. by exists d.
  - rewrite movePlayer_off_screen by done. eauto.
Qed.

Lemma press_keys_off_walls keys g m p :
  maze g = Some m → player g = Some p →
  isWall m (player_x p) (player_y p) = false →
  ∃ g' p',
    press_keys keys g = (Normal (), g') ∧
    maze g' = Some m ∧ player g' = Some p' ∧
    isWall m (player_x p') (player_y p') = false.
Proof.
  revert g p. induction keys as [|key keys IH]; intros g p Hm Hp Hfree.
  - exists g, p. done.
  - simpl. unfold mbind, Eff_bind.
    destruct (handleGameKeyPress_step key g m p Hm Hp) as (g1 & -> & Hm1 & Hp1).
    destruct Hp1 as [Hp1|[d Hp1]].
    + by apply (IH g1 p).
    + apply (IH g1 _ Hm1 Hp1). by apply move_keeps_off_walls.
Qed.

(** X26. From the image to the last key. Start a level whose image decodes
    and then press any keys: nothing ever throws, the maze in play stays the
    one made from that image, and after every key the player stands on a
    cell that is no wall of it, also once the goal has been reached and the
    clear screen is shown. *)
Theorem X26_play_never_enters_a_wall
    (assets : Assets) (level : Z) (g : MazeGame) (d : MazeData)
    (keys : list string) :
  level ≤ maxLevel (gameState g) →
  parsedMazes g !! pretty level = None →
  parseMazeFromImage assets (getMazeConfig level) = Normal d →
  ∃ g1 g2 p,
    startLevel assets level g = (Normal (), g1) ∧
    press_keys keys g1 = (Normal (), g2) ∧
    maze g2 = Some (new_Maze d) ∧ player g2 = Some p ∧
    isWall (new_Maze d) (player_x p) (player_y p) = false.
Proof.
  intros Hle Hmiss Hparse.
  assert (level_data assets level g = Normal d) as Hdata.
  { unfold level_data. by rewrite Hmiss. }
  destruct (startLevel_ok assets level g d Hle Hdata) as (g1 & Hrun & Hm & Hp & _).
  assert (isWall (new_Maze d) (cell_x (maze_start (new_Maze d)))
                 (cell_y (maze_start (new_Maze d))) = false) as H0.
  { apply not_true_is_false. intros Hw%isWall_new_Maze. simpl in Hw.
    apply (decoded_start_not_wall _ _ _ Hparse). by destruct (data_start d). }
  destruct (press_keys_off_walls keys g1 _ _ Hm Hp H0) as (g2 & p & Hkeys & Hm2 & Hp2 & Hfree).
  exists g1, g2, p. done.
Qed.

Lemma X26_play_never_enters_a_wall_witness :
  ∃ g1 g2 p,
    startLevel (Examples.only Examples.room) 2 Games.playing = (Normal (), g1) ∧
    press_keys ["d"; "ArrowDown"; "W"; "a"; "a"; "q"] g1 = (Normal (), g2) ∧
    maze g2 = Some (new_Maze Examples.room_data) ∧ player g2 = Some p ∧
    isWall (new_Maze Examples.room_data) (player_x p) (player_y p) = false.
Proof.
  assert (2 ≤ maxLevel (gameState Games.playing)) as Hle by (simpl; lia).
  assert (parsedMazes Games.playing !! pretty 2 = None) as Hmiss
    by (vm_compute; reflexivity).
  assert (parseMazeFromImage (Examples.only Examples.room) (getMazeConfig 2)
          = Normal Examples.room_data) as Hparse by (vm_compute; reflexivity).
  exact (X26_play_never_enters_a_wall _ 2 Games.playing _
           ["d"; "ArrowDown"; "W"; "a"; "a"; "q"] Hle Hmiss Hparse).
Defined.

Lemma cache_kept_ret : cache_kept (mret ()).
Proof. intros g key d H. done. Qed.

Lemma cache_kept_bind (c k : Eff unit) :
  cache_kept c → cache_kept k → cache_kept (c ;; k).
Proof.
  intros Hc Hk g key d H. unfold mbind, Eff_bind.
  pose proof (Hc g key d H) as H1.
  destruct (c g) as [[[]|e] g1]; simpl in *; [|done]. by apply Hk.
Qed.

Lemma cache_kept_get (k : MazeGame → Eff unit) :
  (∀ g, cache_kept (k g)) → cache_kept (g ← get; k g).
Proof. intros Hk g. apply (Hk g g). Qed.

Lemma cache_kept_modify f :
  (∀ g, parsedMazes (f g) = parsedMazes g) → cache_kept (modify f).
Proof. intros Hf g key d H. simpl. by rewrite Hf. Qed.

Lemma addLevelPreview_cache_kept assets level : cache_kept (addLevelPreview assets level).
Proof.
  intros g key d H. unfold addLevelPreview. run_eff.
  destruct (isLevelCompleted level (gameState g)); [|done].
  destruct (parsedMazes g !! pretty level) eqn:Hl; [done|].
  destruct (parseMazeFromImage assets (getMazeConfig level)); [|done].
  simpl. rewrite lookup_insert_ne; [done|]. intros <-. congruence.
Qed.

Lemma updateLevelGrid_cache_kept assets : cache_kept (updateLevelGrid assets).
Proof.
  unfold updateLevelGrid. apply cache_kept_get. intros g.
  induction (seqZ 1 (maxLevel (gameState g))) as [|i l IH]; simpl.
  - apply cache_kept_ret.
  - apply cache_kept_get. intros g'. apply cache_kept_bind; [|done].
    case_match; auto using cache_kept_ret, addLevelPreview_cache_kept.
Qed.

Lemma showLevelSelect_cache_kept assets : cache_kept (showLevelSelect assets).
Proof.
  unfold showLevelSelect. apply cache_kept_get. intros g.
  case_decide.
  - by apply cache_kept_modify.
  - apply cache_kept_bind; [by apply cache_kept_modify|].
    apply updateLevelGrid_cache_kept.
Qed.

(** X27. The cache of decoded mazes is write-once after start-up. Neither
    [startLevel], whether it succeeds, fails or refuses the level, nor
    [showLevelSelect] with its previews ever changes or drops a descriptor
    that is in the cache: an entry can only be added for a level that had
    none. *)
Theorem X27_cache_entries_are_kept (assets : Assets) (level : Z) :
  cache_kept (startLevel assets level) ∧ cache_kept (showLevelSelect assets).
Proof.
  split; [|apply showLevelSelect_cache_kept].
  intros g key d H.
  destruct (decide (level > maxLevel (gameState g))) as [Hgt|Hle].
  { unfold startLevel. run_eff. by rewrite decide_True. }
  destruct (level_data assets level g) as [d'|e] eqn:Hdata.
  - destruct (startLevel_ok assets level g d' ltac:(lia) Hdata)
      as (g' & -> & _ & _ & _ & _ & _ & _ & _ & Hhit & Hother & _).
    simpl. destruct (decide (key = pretty level)) as [->|Hne].
    + rewrite Hhit. unfold level_data in Hdata. rewrite H in Hdata. congruence.
    + by rewrite Hother.
  - unfold level_data in Hdata. unfold startLevel. run_eff.
    rewrite decide_False by done. simpl.
    destruct (parsedMazes g !! pretty level); [done|]. rewrite Hdata.
    match goal with |- context [showLevelSelect assets ?g1] =>
      apply (showLevelSelect_cache_kept assets g1)
    end.
    done.
Qed.

Lemma X27_cache_entries_are_kept_witness :
  let g := (startLevel (Examples.only Examples.corridor) 2 Games.playing).2 in
  parsedMazes (startLevel Examples.nothing 3 g).2 !! "2" = Some Mazes.corridor_data.
Proof.
  intros g.
  assert (parsedMazes g !! "2" = Some Mazes.corridor_data) as H
    by (vm_compute; reflexivity).
  exact (proj1 (X27_cache_entries_are_kept Examples.nothing 3) g "2" _ H).
Defined.
